(** * BNE hemeroteca pipeline: a shallow embedding of the crawl, resume,
      download, sanitisation, date parsing and PDF pagination code.

    Python [str] values are modelled by [string], one [ascii] per code
    point, so the model covers texts over U+0000..U+00FF (this range holds
    every literal the sources compare against: the accented "a" of
    "páginas" is U+00E1 and the ordinal sign of "n.º" is U+00BA). *)

From Stdlib Require Import Ascii String DecimalString DecimalNat.
From stdpp Require Import base option list gmap strings.

Local Open Scope string_scope.
Local Open Scope list_scope.
Local Open Scope nat_scope.

(** ** Python string primitives used by the sources *)
Module PyStr.

Definition code (c : ascii) : nat := nat_of_ascii c.

(** [str.isspace] on one code point below U+0100; this is also the class
    [\s] of [re] on [str] patterns. *)
Definition isspace (c : ascii) : bool :=
  let n := code c in
  ((9 <=? n) && (n <=? 13)) || ((28 <=? n) && (n <=? 32))
  || (n =? 133) || (n =? 160).

(** ASCII decimal digit: the class [\d] of [re] below U+0100. *)
Definition is_ascii_digit (c : ascii) : bool :=
  let n := code c in (48 <=? n) && (n <=? 57).

(** [str.isdigit] below U+0100: the ASCII digits and the superscripts
    two, three and one. *)
Definition isdigit (c : ascii) : bool :=
  let n := code c in
  is_ascii_digit c || (n =? 178) || (n =? 179) || (n =? 185).

Definition digit_val (c : ascii) : nat := code c - 48.

Definition is_empty (s : string) : bool :=
  match s with EmptyString => true | String _ _ => false end.

Fixpoint lstrip_by (p : ascii -> bool) (s : string) : string :=
  match s with
  | EmptyString => EmptyString
  | String c r => if p c then lstrip_by p r else s
  end.

Fixpoint rstrip_by (p : ascii -> bool) (s : string) : string :=
  match s with
  | EmptyString => EmptyString
  | String c r =>
      let r' := rstrip_by p r in
      if is_empty r' && p c then EmptyString else String c r'
  end.

Definition strip_by (p : ascii -> bool) (s : string) : string :=
  rstrip_by p (lstrip_by p s).

(** [s.strip()], [s.strip(c)], [s.lstrip(c)], [s.rstrip(c)]. *)
Definition strip (s : string) : string := strip_by isspace s.
Definition is_char (c : ascii) : ascii -> bool := Ascii.eqb c.
Definition strip_char (c : ascii) (s : string) : string := strip_by (is_char c) s.
Definition lstrip_char (c : ascii) (s : string) : string := lstrip_by (is_char c) s.
Definition rstrip_char (c : ascii) (s : string) : string := rstrip_by (is_char c) s.

Fixpoint startswith (p s : string) : bool :=
  match p, s with
  | EmptyString, _ => true
  | String a p', String b s' => Ascii.eqb a b && startswith p' s'
  | String _ _, EmptyString => false
  end.

Fixpoint drop_prefix (p s : string) : option string :=
  match p, s with
  | EmptyString, _ => Some s
  | String a p', String b s' => if Ascii.eqb a b then drop_prefix p' s' else None
  | String _ _, EmptyString => None
  end.

Fixpoint endswith (p s : string) : bool :=
  match s with
  | EmptyString => is_empty p
  | String _ r => String.eqb p s || endswith p r
  end.

(** [sub in s]. *)
Fixpoint contains (sub s : string) : bool :=
  startswith sub s ||
  match s with
  | EmptyString => false
  | String _ r => contains sub r
  end.

Fixpoint has_char (c : ascii) (s : string) : bool :=
  match s with
  | EmptyString => false
  | String a r => Ascii.eqb c a || has_char c r
  end.

(** [s.split(c, 1)] for an [s] that contains [c]: the text before the
    first [c] and the text after it. *)
Fixpoint split_once (c : ascii) (s : string) : option (string * string) :=
  match s with
  | EmptyString => None
  | String a r =>
      if Ascii.eqb c a then Some (EmptyString, r)
      else match split_once c r with
           | Some (l, t) => Some (String a l, t)
           | None => None
           end
  end.

Fixpoint drop_chars (n : nat) (s : string) : string :=
  match n, s with
  | O, _ => s
  | S n', String _ r => drop_chars n' r
  | S _, EmptyString => EmptyString
  end.

(** [s.replace(old, EmptyString)] for a non-empty [old]: occurrences are
    removed left to right without overlap.  [fuel] bounds the scan and the
    wrapper supplies the length of [s], which always suffices. *)
Fixpoint remove_go (fuel : nat) (old s : string) : string :=
  match fuel with
  | O => s
  | S f =>
      match s with
      | EmptyString => EmptyString
      | String a r =>
          if startswith old s
          then remove_go f old (drop_chars (String.length old) s)
          else String a (remove_go f old r)
      end
  end.

Definition remove (old s : string) : string :=
  if is_empty old then s else remove_go (String.length s) old s.

(** [str.lower] on one code point below U+0100. *)
Definition lower_char (c : ascii) : ascii :=
  let n := code c in
  if ((65 <=? n) && (n <=? 90))
     || ((192 <=? n) && (n <=? 222) && negb (n =? 215))
  then ascii_of_nat (n + 32) else c.

Fixpoint lower (s : string) : string :=
  match s with
  | EmptyString => EmptyString
  | String c r => String (lower_char c) (lower r)
  end.

Fixpoint any (p : ascii -> bool) (s : string) : bool :=
  match s with
  | EmptyString => false
  | String c r => p c || any p r
  end.

(** The first character, if any, is outside the class [p]. *)
Definition head_clear (p : ascii -> bool) (s : string) : bool :=
  match s with
  | EmptyString => true
  | String c _ => negb (p c)
  end.

Fixpoint all (p : ascii -> bool) (s : string) : bool :=
  match s with
  | EmptyString => true
  | String c r => p c && all p r
  end.

(** [s.replace(a, b)] for single characters. *)
Fixpoint replace_char (a b : ascii) (s : string) : string :=
  match s with
  | EmptyString => EmptyString
  | String c r => String (if Ascii.eqb c a then b else c) (replace_char a b r)
  end.

(** [s.split(c)]: the pieces between the occurrences of [c]; never an
    empty list. *)
Fixpoint split_all (c : ascii) (s : string) : list string :=
  match s with
  | EmptyString => [EmptyString]
  | String a r =>
      if Ascii.eqb a c then EmptyString :: split_all c r
      else match split_all c r with
           | piece :: rest => String a piece :: rest
           | [] => [String a EmptyString]
           end
  end.

End PyStr.

(** ** src/data_utils.py *)
Module DateRange.
Import PyStr.

Record datetime := mkdate { year : nat; month : nat; day : nat }.

Definition is_leap (y : nat) : bool :=
  ((y mod 4 =? 0) && negb (y mod 100 =? 0)) || (y mod 400 =? 0).

Definition days_in_month (y m : nat) : nat :=
  match m with
  | 2 => if is_leap y then 29 else 28
  | 4 | 6 | 9 | 11 => 30
  | _ => 31
  end.

(** The constructor check of [datetime]: MINYEAR is 1, and the four-digit
    pattern keeps the year below 10000. *)
Definition valid_date (y m d : nat) : bool :=
  (1 <=? y) && (1 <=? m) && (m <=? 12) && (1 <=? d) && (d <=? days_in_month y m).

Definition in_range (lo hi : nat) (c : ascii) : bool :=
  (lo <=? code c) && (code c <=? hi).

(** The alternatives of the [%d] pattern of [_strptime], in the order the
    regular expression tries them:
    [3[0-1] | [1-2]\d | 0[1-9] | [1-9] | space [1-9]].
    Each candidate is the number read and the text left. *)
Definition day_candidates (s : string) : list (nat * string) :=
  match s with
  | String a (String b r) =>
      (if Ascii.eqb a "3" && in_range 48 49 b
       then [(10 * digit_val a + digit_val b, r)] else [])
      ++ (if in_range 49 50 a && is_ascii_digit b
          then [(10 * digit_val a + digit_val b, r)] else [])
      ++ (if Ascii.eqb a "0" && in_range 49 57 b
          then [(digit_val b, r)] else [])
      ++ (if in_range 49 57 a then [(digit_val a, String b r)] else [])
      ++ (if Ascii.eqb a " " && in_range 49 57 b
          then [(digit_val b, r)] else [])
  | String a EmptyString =>
      if in_range 49 57 a then [(digit_val a, EmptyString)] else []
  | EmptyString => []
  end.

(** The alternatives of [%m]: [1[0-2] | 0[1-9] | [1-9]]. *)
Definition month_candidates (s : string) : list (nat * string) :=
  match s with
  | String a (String b r) =>
      (if Ascii.eqb a "1" && in_range 48 50 b
       then [(10 + digit_val b, r)] else [])
      ++ (if Ascii.eqb a "0" && in_range 49 57 b
          then [(digit_val b, r)] else [])
      ++ (if in_range 49 57 a then [(digit_val a, String b r)] else [])
  | String a EmptyString =>
      if in_range 49 57 a then [(digit_val a, EmptyString)] else []
  | EmptyString => []
  end.

(** [%Y]: exactly four digits. *)
Definition year_match (s : string) : option (nat * string) :=
  match s with
  | String a (String b (String c (String d r))) =>
      if is_ascii_digit a && is_ascii_digit b && is_ascii_digit c && is_ascii_digit d
      then Some (1000 * digit_val a + 100 * digit_val b
                 + 10 * digit_val c + digit_val d, r)
      else None
  | _ => None
  end.

Definition slash (s : string) : option string :=
  match s with
  | String "/" r => Some r
  | _ => None
  end.

Fixpoint first_some {A B} (f : A -> option B) (l : list A) : option B :=
  match l with
  | [] => None
  | x :: r => match f x with Some y => Some y | None => first_some f r end
  end.

(** The first match of the compiled pattern [%d/%m/%Y] at the start of
    the text, with backtracking over the alternatives. *)
Definition match_dmy (s : string) : option (nat * nat * nat * string) :=
  first_some (fun '(d, r1) =>
    r2 ← slash r1;
    first_some (fun '(m, r3) =>
      r4 ← slash r3;
      '(y, r5) ← year_match r4;
      Some (d, m, y, r5)) (month_candidates r2))
    (day_candidates s).

(** [datetime.strptime(s, '%d/%m/%Y')]; [None] stands for ValueError
    (no match, unconverted data left, or a date that does not exist). *)
Definition strptime (s : string) : option datetime :=
  match match_dmy s with
  | Some (d, m, y, EmptyString) =>
      if valid_date y m d then Some (mkdate y m d) else None
  | _ => None
  end.

(** [parse_date_range]; the argument is [None] when [pd.isna] holds. *)
Definition parse_date_range (date_str : option string)
  : option datetime * option datetime :=
  match date_str with
  | None => (None, None)
  | Some raw =>
      if is_empty (strip raw) then (None, None) else
      let date_str := strip raw in
      if endswith "-" date_str then
        match strptime (rstrip_char "-" date_str) with
        | Some d => (Some d, None)
        | None => (None, None)
        end
      else if startswith "-" date_str then
        match strptime (lstrip_char "-" date_str) with
        | Some d => (None, Some d)
        | None => (None, None)
        end
      else if has_char "-" date_str then
        match split_once "-" date_str with
        | Some (p0, p1) =>
            let start_str := strip p0 in
            let end_str := strip p1 in
            let date_start :=
              if is_empty start_str then None else strptime start_str in
            let date_finish :=
              if is_empty end_str then None else strptime end_str in
            (date_start, date_finish)
        | None => (None, None)
        end
      else
        match strptime date_str with
        | Some single_date => (Some single_date, Some single_date)
        | None => (None, None)
        end
  end.

(** [r] is what is left of [s] after a prefix without a dash. *)
Definition consumed (s r : string) : Prop :=
  exists pre, s = pre +:+ r /\ has_char "-" pre = false.

End DateRange.

(** ** Exceptions

    A call that may raise returns a [result]; [Raise] carries the message of
    an exception of class [Exception], the class every handler of the
    sources catches. *)
Module Exn.

Inductive result (A : Type) : Type :=
| Ok (a : A)
| Raise (e : string).
Arguments Ok {A} a.
Arguments Raise {A} e.

Definition bind {A B} (m : result A) (k : A -> result B) : result B :=
  match m with
  | Ok a => k a
  | Raise e => Raise e
  end.

Definition raised {A} (m : result A) : bool :=
  match m with Ok _ => false | Raise _ => true end.

#[global] Instance result_bind : MBind result := fun A B k m => bind m k.
#[global] Instance result_ret : MRet result := fun A a => Ok a.

End Exn.

(** ** scrape_issues.py: the record store *)
Module Store.
Import PyStr Exn.

(** A row as [csv.DictReader] yields it: a dict from column names to
    values, where a short line leaves the missing columns at [None]. *)
Abbreviation row := (gmap string (option string)).

(** What reading ISSUES_CSV does: the rows the reader yields, in file
    order, and then either the end of the file ([failure = None]) or an
    exception raised by [open] or by the reader (a decoding or csv
    error).  An exception at [open] is the case of no row yielded. *)
Record csv_file := mkcsv {
  yielded : list row;
  failure : option string
}.

(** [k in row and row[k]]: the value when the key is present and the
    value is truthy (neither [None] nor the empty string). *)
Definition truthy_field (r : row) (k : string) : option string :=
  match r !! k with
  | Some (Some v) => if is_empty v then None else Some v
  | _ => None
  end.

(** One iteration of the reading loop over the locals
    [(existing, last_publication_issn)]. *)
Definition scan_row (st : gset string * option string) (r : row)
  : gset string * option string :=
  let existing :=
    match truthy_field r "issue_uuid" with
    | Some u => {[ u ]} ∪ st.1
    | None => st.1
    end in
  let last_publication_issn :=
    match truthy_field r "publication_issn" with
    | Some i => Some i
    | None => st.2
    end in
  (existing, last_publication_issn).

Definition scan_rows (rows : list row) : gset string * option string :=
  fold_left scan_row rows (∅, None).

Definition warning (e : string) : string :=
  "Warning: Could not read existing issues CSV: " +:+ e.

(** [get_existing_issue_uuids]; the argument is [None] when ISSUES_CSV
    does not exist.  The result is the returned pair and the lines
    printed.  The handler only prints, so what the loop stored in the
    locals before an exception is what the function returns. *)
Definition get_existing_issue_uuids (f : option csv_file)
  : (gset string * option string) * list string :=
  match f with
  | None => ((∅, None), [])
  | Some file =>
      (scan_rows (yielded file),
       match failure file with
       | Some e => [warning e]
       | None => []
       end)
  end.

(** The loader as the specification words it: every value of the key
    column, and the checkpoint column of the last row read. *)
Definition column (k : string) (r : row) : option string :=
  mjoin (r !! k).

Definition spec_load_existing_keys (rows : list row)
  : gset string * option string :=
  (list_to_set (omap (column "issue_uuid") rows),
   last rows ≫= column "publication_issn").

(** A full row of the issues file, by its two columns of interest. *)
Definition row_of (publication_issn issue_uuid : string) : row :=
  {[ "publication_issn" := Some publication_issn;
     "issue_uuid" := Some issue_uuid ]}.

End Store.

(** ** scrape_issues.py: the resume point *)
Module Resume.
Import PyStr.

Record publication := mkpub {
  pub_uuid : string;
  issn : string;
  collection : string;
  title : string;
  issues_link : string
}.

(** [next((i for i, p in enumerate(l) if p["issn"] == key), -1)];
    [None] stands for -1. *)
Fixpoint find_index (key : string) (l : list publication) : option nat :=
  match l with
  | [] => None
  | p :: r =>
      if String.eqb (issn p) key then Some 0
      else S <$> find_index key r
  end.

(** Lines 350-364 of [scrape_issues]: the publications the run will
    process, given the checkpoint. *)
Definition resume_publications (last_processed_issn : option string)
    (publications : list publication) : list publication :=
  match last_processed_issn with
  | None => publications
  | Some key =>
      if is_empty key then publications
      else match find_index key publications with
           | Some start_index => drop start_index publications
           | None => publications
           end
  end.

End Resume.

(** ** scrape_issues.py: directory names *)
Module Sanitize.
Import PyStr.

(** The class of the first substitution: backslash, slash, star,
    question mark, colon, double quote, angle brackets and bar. *)
Definition is_invalid (c : ascii) : bool :=
  let n := code c in
  (n =? 92) || (n =? 47) || (n =? 42) || (n =? 63) || (n =? 58)
  || (n =? 34) || (n =? 60) || (n =? 62) || (n =? 124).

Definition dash : ascii := "-".

(** The class [[-\s]]. *)
Definition is_dash_or_space (c : ascii) : bool :=
  Ascii.eqb c dash || isspace c.

Fixpoint replace_invalid (s : string) : string :=
  match s with
  | EmptyString => EmptyString
  | String c r => String (if is_invalid c then dash else c) (replace_invalid r)
  end.

(** [re.sub(r'[-\s]+', '-', s)]; [in_run] tells that the previous
    character belonged to the run being replaced. *)
Fixpoint collapse_go (in_run : bool) (s : string) : string :=
  match s with
  | EmptyString => EmptyString
  | String c r =>
      if is_dash_or_space c
      then if in_run then collapse_go true r
           else String dash (collapse_go true r)
      else String c (collapse_go false r)
  end.

Definition collapse (s : string) : string := collapse_go false s.

Definition sanitize_dirname (name : string) : string :=
  if is_empty name then "unknown"
  else strip_char dash (collapse (replace_invalid name)).

(** Lines 461-464: a publication loaded by [load_publications] always
    has both keys, so the defaults of [pub.get] are never used. *)
Definition or_default (default s : string) : string :=
  if is_empty s then default else s.

Definition collection_safe (pub : Resume.publication) : string :=
  or_default "unknown_collection" (sanitize_dirname (Resume.collection pub)).

Definition issn_safe (pub : Resume.publication) : string :=
  or_default "unknown_issn" (sanitize_dirname (Resume.issn pub)).

(** No two adjacent characters of the class of the second substitution;
    with [b], no such character in front either. *)
Fixpoint separated (b : bool) (s : string) : bool :=
  match s with
  | EmptyString => true
  | String c r =>
      if is_dash_or_space c then negb b && separated true r
      else separated false r
  end.

Definition one (c : ascii) : string := String c EmptyString.

(** A character that the two substitutions turn into a dash. *)
Definition is_separator (c : ascii) : bool :=
  is_invalid c || is_dash_or_space c.

End Sanitize.

(** ** scrape_issues.py: parse_issue_name_parts *)
Module NameParts.
Import PyStr Exn.

(** What the page client answers for one [span.name-part]: its text, and
    whether [./strong] and [./ancestor::strong] find anything.  Each
    query may raise (a stale element, a lost session). *)
Record name_part := mkpart {
  text : result string;
  child_strong : result bool;
  ancestor_strong : result bool
}.

(** The [p.list-item-name] element: the answer of
    [find_elements(span.name-part)]. *)
Abbreviation name_element := (result (list name_part)).

Definition a_acute : ascii := ascii_of_nat 225.
Definition ordinal : ascii := ascii_of_nat 186.
Definition paginas : string := String "p" (String a_acute "ginas").
Definition n_dot_ord : string := String "n" (String "." (String ordinal EmptyString)).
Definition n_ord : string := String "n" (String ordinal EmptyString).

Record fields := mkfields {
  issue_name : string;
  date : string;
  number : string;
  pages : string
}.

Definition no_fields : fields :=
  mkfields EmptyString EmptyString EmptyString EmptyString.

(** The branch taken for a part whose queries answered. *)
Definition classify (st : fields) (txt : string) (strong : bool) : fields :=
  if strong then
    mkfields txt (date st) (number st) (pages st)
  else if contains paginas (lower txt) then
    mkfields (issue_name st) (date st) (number st) (strip (remove paginas txt))
  else if contains n_dot_ord (lower txt) || contains n_ord (lower txt) then
    mkfields (issue_name st) (date st)
             (strip (remove n_ord (remove n_dot_ord txt))) (pages st)
  else if is_empty (date st) && ((4 <=? String.length txt) && any isdigit txt) then
    mkfields (issue_name st) txt (number st) (pages st)
  else st.

(** One iteration of the loop: the queries in the order the code makes
    them; [or] asks for the ancestor only when no child is found. *)
Definition step (st : fields) (part : name_part) : result fields :=
  raw ← text part;
  let txt := strip raw in
  child ← child_strong part;
  strong ← (if child : bool then Ok true else ancestor_strong part);
  Ok (classify st txt strong).

Fixpoint loop (st : fields) (parts : list name_part) : result fields :=
  match parts with
  | [] => Ok st
  | part :: rest => st' ← step st part; loop st' rest
  end.

(** [parse_issue_name_parts]: one handler around the whole body.  The
    result is the returned tuple and the lines printed. *)
Definition parse_issue_name_parts (name_element : name_element)
  : fields * list string :=
  match (name_parts ← name_element; loop no_fields name_parts) with
  | Ok st => (st, [])
  | Raise e => (no_fields, ["Error parsing issue name parts: " +:+ e])
  end.

(** The queries the loop makes on a part, and whether one raises. *)
Definition part_fails (part : name_part) : bool :=
  match text part, child_strong part with
  | Ok _, Ok true => false
  | Ok _, Ok false => raised (ancestor_strong part)
  | _, _ => true
  end.

(** Extraction as the specification words it: a query that fails costs
    its own part only, and the other parts are still read. *)
Definition spec_step (st : fields) (part : name_part) : fields :=
  match step st part with
  | Ok st' => st'
  | Raise _ => st
  end.

Definition spec_extract_fields (parts : list name_part) : fields :=
  fold_left spec_step parts no_fields.

End NameParts.

(** ** scrape_issues.py: download_pdf and process_issue_download *)
Module Download.
Import PyStr Exn.

(** What the outside world answers during one call of [download_pdf]. *)
Record network := mknet {
  (* [requests.get(full_url, stream=True, ...)]: the status code. *)
  http_get : result nat;
  (* opening [target_path] and writing the streamed chunks. *)
  write_body : result unit;
  (* [driver.find_element(By.XPATH, xpath)] followed by [click()]. *)
  find_and_click : result unit;
  (* one entry per iteration of the polling loop that the timeout
      allows: the newest pdf of the download directory when it is recent
      enough, nothing otherwise, or an exception of glob or getmtime. *)
  polls : list (result (option string));
  (* [shutil.move(downloaded_file, target_path)]. *)
  move_file : result unit
}.

Inductive event :=
| Requested (url : string)
| Written (path : string)
| DirectFailed (e : string)      (* printed before the fallback starts *)
| Clicked (link : string)
| Moved (file path : string)
| SeleniumFailed (e : string)
| Announced (name : string)      (* the line printed before a download *)
| Reported (ok : bool).          (* the line printed after it *)

Definition BASE_URL : string := "https://hemerotecadigital.bne.es".

Definition full_url (download_link : string) : string :=
  if startswith "/" download_link then BASE_URL +:+ download_link
  else download_link.

(** The body of the inner [try] of the direct download.  [Ok None] means
    that the block ended without returning. *)
Definition direct_body (net : network) (url target_path : string)
  : list event * result (option bool) :=
  match http_get net with
  | Raise e => ([Requested url], Raise e)
  | Ok status_code =>
      if status_code =? 200 then
        match write_body net with
        | Raise e => ([Requested url], Raise e)
        | Ok _ => ([Requested url; Written target_path], Ok (Some true))
        end
      else ([Requested url], Ok None)
  end.

(** The [while] loop over the download directory. *)
Fixpoint poll_loop (obs : list (result (option string)))
  : result (option string) :=
  match obs with
  | [] => Ok None
  | Raise e :: _ => Raise e
  | Ok (Some latest_file) :: _ => Ok (Some latest_file)
  | Ok None :: rest => poll_loop rest
  end.

(** The body of the [try] of the fallback. *)
Definition selenium_body (net : network) (download_link target_path : string)
  : list event * result (option bool) :=
  match find_and_click net with
  | Raise e => ([], Raise e)
  | Ok _ =>
      match poll_loop (polls net) with
      | Raise e => ([Clicked download_link], Raise e)
      | Ok None => ([Clicked download_link], Ok None)
      | Ok (Some downloaded_file) =>
          match move_file net with
          | Raise e => ([Clicked download_link], Raise e)
          | Ok _ =>
              ([Clicked download_link; Moved downloaded_file target_path],
               Ok (Some true))
          end
      end
  end.

(** The body of the outer [try]: the fallback sits in the handler of the
    direct download, and [return False] follows both. *)
Definition download_pdf_body (net : network) (download_link target_path : string)
  : list event * result bool :=
  let '(ev1, r1) := direct_body net (full_url download_link) target_path in
  match r1 with
  | Ok (Some b) => (ev1, Ok b)
  | Ok None => (ev1, Ok false)
  | Raise e =>
      let '(ev2, r2) := selenium_body net download_link target_path in
      match r2 with
      | Ok (Some b) => (ev1 ++ DirectFailed e :: ev2, Ok b)
      | Ok None => (ev1 ++ DirectFailed e :: ev2, Ok false)
      | Raise e2 => (ev1 ++ DirectFailed e :: ev2 ++ [SeleniumFailed e2], Ok false)
      end
  end.

(** [download_pdf], as its caller sees it: a value, or an exception that
    went past the outer handler. *)
Definition download_pdf (net : network) (download_link target_path : string)
  : list event * result bool :=
  let '(ev, r) := download_pdf_body net download_link target_path in
  match r with
  | Ok b => (ev, Ok b)
  | Raise _ => (ev, Ok false)
  end.

Definition primary_raised (net : network) : bool :=
  match http_get net with
  | Raise _ => true
  | Ok status_code => (status_code =? 200) && raised (write_body net)
  end.

(** The events that put a file at [target_path]. *)
Definition delivers (target_path : string) (e : event) : bool :=
  match e with
  | Written path => String.eqb path target_path
  | Moved _ path => String.eqb path target_path
  | _ => false
  end.

Definition delivered (target_path : string) (ev : list event) : bool :=
  existsb (delivers target_path) ev.

Definition fallback_triggered (ev : list event) : bool :=
  existsb (fun e => match e with DirectFailed _ => true | _ => false end) ev.

End Download.

(** ** scrape_issues.py: the crawl *)
Module Crawl.
Import PyStr Exn.
Export Resume.

Record record := mkrecord {
  publication_issn : string;
  issue_uuid : string;
  issue_name : string;
  date : string;
  number : string;
  number_of_pages : string;
  issue_link : string
}.

Record issue_data := mkdata {
  download_link : string;
  pdf_path : option string;
  data_record : record
}.

(** One [article.media] of a listing page: the answer of
    [find_element(p.list-item-name)], and the [href] of the download
    anchor ([None] when the anchor is not found or has no [href]). *)
Record article := mkarticle {
  name_elem : result NameParts.name_element;
  download_href : option string
}.

Inductive event :=
| Visit (issn : string)
| Skip (uuid : string)
| Dispatch (uuid link path : string)
| NoDownload (uuid : string).

(** The locals and files of one run of [scrape_issues]. *)
Record state := mkstate {
  existing_issue_uuids : gset string;
  uuid_calls : nat;               (* calls of [uuid.uuid4] so far *)
  download_calls : nat;           (* calls of [download_pdf] so far *)
  issues_csv : list record;       (* rows appended to ISSUES_CSV *)
  failures_csv : list record;     (* rows appended to FAILURES_CSV *)
  trace : list event
}.

(** [process_issue_download]. *)
Definition process_issue_download (net : Download.network) (data : issue_data)
  : list Download.event * (bool * record) :=
  match pdf_path data with
  | Some path =>
      if is_empty (download_link data) then ([], (true, data_record data))
      else
        let '(ev, r) := Download.download_pdf net (download_link data) path in
        let ok := match r with Ok b => b | Raise _ => false end in
        (Download.Announced (issue_name (data_record data)) :: ev
           ++ [Download.Reported ok],
         (ok, data_record data))
  | None => ([], (true, data_record data))
  end.

Section Run.
(** The surroundings of a run. *)
Variable ISSUES_DIR : string.
(** the [n]-th value of [str(uuid.uuid4())]. *)
Variable uuid4 : nat -> string.
(** [parse_qs(urlparse(link).query)] at key [id], first value; [None]
    when the key is absent or one of the two calls raises. *)
Variable query_id : string -> option string.
(** what the [k]-th call of [download_pdf] meets. *)
Variable network : nat -> Download.network.
(** the order in which [as_completed] hands the futures back. *)
Variable as_completed : list (bool * record) -> list (bool * record).
(** the listing pages the page client shows for a publication, or the
    exception of the first load. *)
Variable site : publication -> result (list (list article)).

Definition parse_download_link_id (download_link : string) : string :=
  if is_empty download_link then EmptyString
  else default EmptyString (query_id download_link).

Definition results_url (issue_uuid : string) : string :=
  "http://hemerotecadigital.bne.es/hd/es/results?id=" +:+ issue_uuid.

Definition issue_dir (pub : publication) (issue_uuid : string) : string :=
  ISSUES_DIR +:+ "/" +:+ Sanitize.collection_safe pub
    +:+ "/publication-" +:+ Sanitize.issn_safe pub
    +:+ "/issue-" +:+ issue_uuid.

(** Lines 428-453 of the loop over the articles of a page: the
    metadata, the download link, the key and the issue link of the
    candidate, and the number of uuid4 calls afterwards.  [None] is the
    exception of [find_element], which skips the article. *)
Record candidate := mkcand {
  cand_fields : NameParts.fields;
  cand_link : string;
  cand_uuid : string;
  cand_issue_link : string;
  cand_calls : nat
}.

Definition issue_candidate (n : nat) (art : article) : option candidate :=
  match name_elem art with
  | Raise _ => None
  | Ok name_element =>
      let f := (NameParts.parse_issue_name_parts name_element).1 in
      let download_link := default EmptyString (download_href art) in
      let download_id :=
        if is_empty download_link then EmptyString
        else parse_download_link_id download_link in
      let issue_link :=
        if is_empty download_id then EmptyString else results_url download_id in
      let '(issue_uuid, n') :=
        if is_empty download_id then (uuid4 n, S n) else (download_id, n) in
      Some (mkcand f download_link issue_uuid issue_link n')
  end.

(** The whole body (lines 428-495): the entry added to [page_issues],
    if any, the number of uuid4 calls afterwards, and the trace. *)
Definition collect_article (pub : publication) (existing : gset string)
    (n : nat) (art : article) : option issue_data * nat * list event :=
  match issue_candidate n art with
  | None => (None, n, [])
  | Some c =>
      let issue_uuid := cand_uuid c in
      if decide (issue_uuid ∈ existing)
      then (None, cand_calls c, [Skip issue_uuid])
      else
        let pdf_path :=
          if is_empty (cand_link c) then None
          else Some (issue_dir pub issue_uuid +:+ "/" +:+ issue_uuid +:+ ".pdf") in
        (Some (mkdata (cand_link c) pdf_path
                 (mkrecord (issn pub) issue_uuid
                    (NameParts.issue_name (cand_fields c))
                    (NameParts.date (cand_fields c))
                    (NameParts.number (cand_fields c))
                    (NameParts.pages (cand_fields c))
                    (cand_issue_link c))),
         cand_calls c, [])
  end.

Fixpoint collect_page (pub : publication) (existing : gset string)
    (n : nat) (articles : list article)
  : list issue_data * nat * list event :=
  match articles with
  | [] => ([], n, [])
  | art :: rest =>
      let '(d, n1, ev1) := collect_article pub existing n art in
      let '(ds, n2, ev2) := collect_page pub existing n1 rest in
      (match d with Some x => x :: ds | None => ds end, n2, ev1 ++ ev2)
  end.

Definition downloads (data : issue_data) : bool :=
  negb (is_empty (download_link data)) && bool_decide (is_Some (pdf_path data)).

(** The futures of a page, in submission order: each task that
    downloads takes the next answer of the network. *)
Fixpoint submit (k : nat) (page_issues : list issue_data)
  : list (bool * record) * nat * list event :=
  match page_issues with
  | [] => ([], k, [])
  | data :: rest =>
      let k' := if downloads data then S k else k in
      let '(rs, k2, ev) := submit k' rest in
      let uuid := issue_uuid (data_record data) in
      ((process_issue_download (network k) data).2 :: rs, k2,
       (if downloads data
        then Dispatch uuid (download_link data) (default EmptyString (pdf_path data))
        else NoDownload uuid) :: ev)
  end.

(** The body of the loop over the completed futures (lines 505-514). *)
Definition record_outcome (st : state) (o : bool * record) : state :=
  if o.1 then
    mkstate ({[ issue_uuid o.2 ]} ∪ existing_issue_uuids st)
            (uuid_calls st) (download_calls st)
            (issues_csv st ++ [o.2]) (failures_csv st) (trace st)
  else
    mkstate (existing_issue_uuids st) (uuid_calls st) (download_calls st)
            (issues_csv st) (failures_csv st ++ [o.2]) (trace st).

(** The entries of [page_issues] and the results of their futures. *)
Definition page_issues (pub : publication) (st : state)
    (articles : list article) : list issue_data :=
  (collect_page pub (existing_issue_uuids st) (uuid_calls st) articles).1.1.

Definition page_futures (pub : publication) (st : state)
    (articles : list article) : list (bool * record) :=
  (submit (download_calls st) (page_issues pub st articles)).1.1.

(** One listing page with articles (lines 426-516). *)
Definition process_page (pub : publication) (st : state)
    (articles : list article) : state :=
  let '(_, n, ev1) :=
    collect_page pub (existing_issue_uuids st) (uuid_calls st) articles in
  let '(_, k, ev2) :=
    submit (download_calls st) (page_issues pub st articles) in
  fold_left record_outcome (as_completed (page_futures pub st articles))
    (mkstate (existing_issue_uuids st) n k (issues_csv st) (failures_csv st)
             (trace st ++ ev1 ++ ev2)).

(** The pagination loop: a page without articles ends it, and so does
    the end of the listing. *)
Fixpoint crawl_pages (pub : publication) (st : state)
    (pages : list (list article)) : state :=
  match pages with
  | [] => st
  | [] :: _ => st
  | articles :: rest => crawl_pages pub (process_page pub st articles) rest
  end.

Definition visit (st : state) (pub : publication) : state :=
  mkstate (existing_issue_uuids st) (uuid_calls st) (download_calls st)
          (issues_csv st) (failures_csv st) (trace st ++ [Visit (issn pub)]).

(** The body of the loop over the publications. *)
Definition scrape_publication (st : state) (pub : publication) : state :=
  match site pub with
  | Raise _ => visit st pub
  | Ok pages => crawl_pages pub (visit st pub) pages
  end.

Definition initial_state (existing : gset string) : state :=
  mkstate existing 0 0 [] [] [].

(** [scrape_issues], from the loaded publication list and the issues
    file on disk. *)
Definition scrape_issues (publications : list publication)
    (store : option Store.csv_file) : state :=
  match publications with
  | [] => initial_state ∅
  | _ =>
      let '(existing, last_processed_issn) :=
        (Store.get_existing_issue_uuids store).1 in
      fold_left scrape_publication
        (resume_publications last_processed_issn publications)
        (initial_state existing)
  end.

End Run.

(** Readings of a run: the publications visited, and between a state and
    a later one the keys whose download was dispatched and the rows
    written to either file. *)
Definition visit_of (e : event) : option string :=
  match e with Visit i => Some i | _ => None end.

Definition dispatch_of (e : event) : option string :=
  match e with Dispatch u _ _ => Some u | _ => None end.

Definition visited (st : state) : list string := omap visit_of (trace st).

Definition dispatched_since (st st' : state) : list string :=
  omap dispatch_of (drop (length (trace st)) (trace st')).

Definition written_since (st st' : state) : list record :=
  drop (length (issues_csv st)) (issues_csv st')
  ++ drop (length (failures_csv st)) (failures_csv st').

(** The invariant of the crawl between a state and a later one: the
    trace and the two files only grow, the key set only grows, and every
    key dispatched or written in between was outside the key set of the
    earlier state. *)
Definition extends (st st' : state) : Prop :=
  exists (events : list event) (rows failures : list record),
    trace st' = trace st ++ events
    /\ issues_csv st' = issues_csv st ++ rows
    /\ failures_csv st' = failures_csv st ++ failures
    /\ existing_issue_uuids st ⊆ existing_issue_uuids st'
    /\ (forall u, u ∈ omap dispatch_of events -> u ∉ existing_issue_uuids st)
    /\ (forall r, r ∈ rows ++ failures ->
          issue_uuid r ∉ existing_issue_uuids st).

(** Two more invariants of the crawl.  Between a state and a later one
    the key set grows by exactly the keys of the rows added to the
    success file. *)
Definition tracked (st st' : state) : Prop :=
  exists rows : list record,
    issues_csv st' = issues_csv st ++ rows
    /\ (forall u, u ∈ existing_issue_uuids st' <->
          u ∈ existing_issue_uuids st \/ u ∈ map issue_uuid rows).

(** Every row of either file names a publication that was visited. *)
Definition attributed (st : state) : Prop :=
  forall r, r ∈ issues_csv st ++ failures_csv st ->
    publication_issn r ∈ visited st.

End Crawl.

(** ** paginate_issues.py: process_pdf *)
Module Paginate.
Import PyStr Exn.

(** The files of the destination directory: name to content. *)
Abbreviation directory := (gmap string string).

Definition decimal (n : nat) : string :=
  NilEmpty.string_of_uint (Nat.to_uint n).

Definition page_filename (pdf_stem : string) (page_num : nat) : string :=
  pdf_stem +:+ "-p" +:+ decimal page_num +:+ ".pdf".

Section Split.
(** [fnmatch(name, pattern)], the test [glob] applies to each file
    name of the directory. *)
Variable fnmatch : string -> string -> bool.

Definition existing_pages (pdf_stem : string) (d : directory) : list string :=
  filter (fun name => fnmatch name (pdf_stem +:+ "-p*.pdf") = true)
         (elements (dom d)).

(** The loop over [enumerate(reader.pages)]; [i] is the index of the
    first page of [pages].  Each output holds its page alone. *)
Fixpoint split_pages (pdf_stem : string) (i : nat) (pages : list string)
    (d : directory) : directory :=
  match pages with
  | [] => d
  | page :: rest =>
      let output := page_filename pdf_stem (i + 1) in
      split_pages pdf_stem (S i) rest
        (match d !! output with
         | Some _ => d
         | None => <[output := page]> d
         end)
  end.

(** [process_pdf]: [reader] is what [PdfReader(pdf_path).pages] gives,
    [dest_dir] the destination directory if it exists.  The result is
    the returned pair and the destination directory afterwards. *)
Definition process_pdf (pdf_path rel_path pdf_stem : string)
    (reader : result (list string)) (dest_dir : option directory)
  : (bool * string) * option directory :=
  match reader with
  | Raise e =>
      ((false, "Error reading PDF " +:+ pdf_path +:+ ": " +:+ e), dest_dir)
  | Ok pages =>
      let num_pages := length pages in
      if match dest_dir with
         | Some d => length (existing_pages pdf_stem d) =? num_pages
         | None => false
         end
      then ((true, "Skipped (already exists): " +:+ rel_path), dest_dir)
      else
        ((true, "Processed: " +:+ rel_path +:+ " (" +:+ decimal num_pages
                  +:+ " pages)"),
         Some (split_pages pdf_stem 0 pages (default ∅ dest_dir)))
  end.

End Split.

(** A pattern with one star, matched literally around it. *)
Definition star_match (name pattern : string) : bool :=
  match split_once "*" pattern with
  | Some (before, after) =>
      match drop_prefix before name with
      | Some rest => endswith after rest && (String.length after <=? String.length rest)
      | None => false
      end
  | None => String.eqb name pattern
  end.

End Paginate.

(** ** A small world to run the model in *)
Module Scenario.
Import PyStr Exn Crawl.

Definition ISSUES_DIR : string := "/srv/bne/data/issues".

Definition uuid4 (n : nat) : string :=
  "7c0e1a52-0000-4000-8000-" +:+ Paginate.decimal n.

(** Links of the shape the site serves, with the id as only parameter. *)
Definition pdf_link (id : string) : string := "/hd/es/pdf?id=" +:+ id.

Definition query_id (link : string) : option string :=
  drop_prefix "/hd/es/pdf?id=" link.

(** Every direct download answers 200 and is written. *)
Definition network (k : nat) : Download.network :=
  Download.mknet (Ok 200) (Ok tt) (Ok tt) [] (Ok tt).

(** A server that refuses, with a browser that would have fetched. *)
Definition blocked : Download.network :=
  Download.mknet (Ok 403) (Ok tt) (Ok tt)
    [Ok (Some "/home/u/Downloads/a.pdf")] (Ok tt).

(** The futures end in the reverse of the submission order. *)
Definition as_completed (l : list (bool * record)) : list (bool * record) :=
  reverse l.

Definition named (label : string) : result NameParts.name_element :=
  Ok (Ok [NameParts.mkpart (Ok label) (Ok true) (Ok false)]).

Definition linked (label id : string) : article :=
  mkarticle (named label) (Some (pdf_link id)).

Definition linkless (label : string) : article :=
  mkarticle (named label) None.

Definition pub_a : publication :=
  mkpub "p-a" "0001-0001" "Prensa" "La Voz" "/hd/es/issues?id=a".
Definition pub_b : publication :=
  mkpub "p-b" "0002-0002" "Prensa" "El Sol" "/hd/es/issues?id=b".
Definition pub_c : publication :=
  mkpub "p-c" "0003-0003" "Prensa" "La Libertad" "/hd/es/issues?id=c".

Definition site (pub : publication) : result (list (list article)) :=
  Ok [[linked "n. 1" "aaa"; linkless "n. 2"]].

Definition issued (id label : string) : record :=
  mkrecord "0001-0001" id label EmptyString EmptyString EmptyString
    (results_url id).

(** A run that already knows one key, a first page and a later one. *)
Definition known_state : state := initial_state {[ "aaa" ]}.

Definition first_page : list article :=
  [linked "n. 1" "aaa"; linked "n. 2" "bbb"].

Definition later_pages : list (list article) :=
  [[linked "n. 2" "bbb"; linked "n. 3" "ccc"]].

Definition after_first_page : state :=
  process_page ISSUES_DIR uuid4 query_id network as_completed pub_a
    known_state first_page.

Definition after_later_pages : state :=
  crawl_pages ISSUES_DIR uuid4 query_id network as_completed pub_a
    after_first_page later_pages.

Definition after_run : state :=
  fold_left
    (scrape_publication ISSUES_DIR uuid4 query_id network as_completed site)
    [pub_b; pub_c] after_later_pages.

(** An issues file of two publications, the second with a blank ISSN,
    and one whose reading fails after its first row. *)
Definition blank_issn_rows : list Store.row :=
  [Store.row_of "0001-0001" "u1"; Store.row_of EmptyString "u2"].

Definition broken_file : Store.csv_file :=
  Store.mkcsv [Store.row_of "0001-0001" "u1"] (Some "invalid start byte").

(** The parts of a name element whose second part went stale. *)
Definition stale_parts : list NameParts.name_part :=
  [ NameParts.mkpart (Ok "El Sol") (Ok true) (Ok false);
    NameParts.mkpart (Raise "stale element reference") (Ok false) (Ok false) ].

(** A destination directory with the first page of three and a note. *)
Definition partial_dir : Paginate.directory :=
  {[ "abc-p1.pdf" := "kept"; "notes.txt" := "n" ]}.

Definition blank_pub : publication :=
  mkpub "p1" EmptyString EmptyString "La Voz" "/hd/es/issues?id=1".

Definition slash_pub : publication :=
  mkpub "p1" EmptyString "/" "La Voz" "/hd/es/issues?id=1".

End Scenario.

(** ** scrape_issues.py: load_publications *)
Module LoadPublications.
Import PyStr Exn Resume.
Export Store.

(** [row.get(k, EmptyString).strip()]: a short line leaves [None] in the
    column, and [None] has no [strip]. *)
Definition stripped (r : row) (k : string) : result string :=
  match r !! k with
  | None => Ok EmptyString
  | Some (Some v) => Ok (strip v)
  | Some None => Raise "'NoneType' object has no attribute 'strip'"
  end.

(** [row.get(k, EmptyString)] for the two fields that the crawl only
    formats into messages, where [None] reads as the text None. *)
Definition formatted (r : row) (k : string) : string :=
  match r !! k with
  | None => EmptyString
  | Some (Some v) => v
  | Some None => "None"
  end.

(** The body of the loop over the rows. *)
Definition load_row (publications : list publication) (r : row)
  : result (list publication) :=
  issues_link ← stripped r "issues_link";
  if is_empty issues_link then Ok publications
  else
    issn ← stripped r "issn";
    collection ← stripped r "collection";
    Ok (publications
        ++ [mkpub (formatted r "uuid") issn collection (formatted r "title")
                  issues_link]).

Fixpoint load_rows (publications : list publication) (rows : list row)
  : result (list publication) :=
  match rows with
  | [] => Ok publications
  | r :: rest => publications' ← load_row publications r; load_rows publications' rest
  end.

(** [load_publications]; the argument is [None] when the file does not
    exist.  The handler returns the empty list whatever was read. *)
Definition load_publications (f : option csv_file)
  : list publication * list string :=
  match f with
  | None => ([], ["Error: Publications file not found"])
  | Some file =>
      match load_rows [] (yielded file), failure file with
      | Ok publications, None => (publications, [])
      | Ok _, Some e => ([], ["Error reading publications CSV: " +:+ e])
      | Raise e, _ => ([], ["Error reading publications CSV: " +:+ e])
      end
  end.

(** A row that the loop reads without an exception, and the publication
    it gives when its link is not blank. *)
Definition readable (r : row) : bool :=
  match stripped r "issues_link" with
  | Raise _ => false
  | Ok issues_link =>
      is_empty issues_link
      || (negb (raised (stripped r "issn"))
          && negb (raised (stripped r "collection")))
  end.

Definition text_of (m : result string) : string :=
  match m with Ok s => s | Raise _ => EmptyString end.

Definition as_publication (r : row) : option publication :=
  let issues_link := text_of (stripped r "issues_link") in
  if is_empty issues_link then None
  else Some (mkpub (formatted r "uuid") (text_of (stripped r "issn"))
               (text_of (stripped r "collection")) (formatted r "title")
               issues_link).

End LoadPublications.

(** ** publications/filter_publications.py *)
Module Filter.
Import PyStr Exn DateRange.
Export Store.

(** [a <= b] on [datetime] values at midnight. *)
Definition le_date (a b : datetime) : bool :=
  (year a <? year b)
  || ((year a =? year b)
      && ((month a <? month b)
          || ((month a =? month b) && (day a <=? day b)))).

(** The value of [matches] (lines 48-59), read as a truth value. *)
Definition date_matches (date_start date_end : option datetime)
    (pub_date_start pub_date_end : option datetime) : bool :=
  match date_start, date_end with
  | Some ds, Some de =>
      match pub_date_start, pub_date_end with
      | Some s, Some e => le_date s de && le_date ds e
      | Some s, None => le_date s de
      | None, Some e => le_date ds e
      | None, None => false
      end
  | Some ds, None =>
      match pub_date_start with Some s => le_date s ds | None => false end
      || match pub_date_end with Some e => le_date ds e | None => false end
  | None, Some de =>
      match pub_date_end with Some e => le_date de e | None => false end
      || match pub_date_start with Some s => le_date s de | None => false end
  | None, None => false
  end.

Definition stripped (pub : row) (k : string) : result string :=
  match pub !! k with
  | None => Ok EmptyString
  | Some (Some v) => Ok (strip v)
  | Some None => Raise "'NoneType' object has no attribute 'strip'"
  end.

Definition in_collections (collections : option (list string)) (pub : row)
  : result bool :=
  match collections with
  | None => Ok true
  | Some cs =>
      pub_collection ← stripped pub "collection";
      Ok (negb (is_empty pub_collection) && bool_decide (pub_collection ∈ cs))
  end.

Definition in_dates (date_start date_end : option datetime) (pub : row)
  : result bool :=
  match date_start, date_end with
  | None, None => Ok true
  | _, _ =>
      pub_date_str ← stripped pub "date";
      if is_empty pub_date_str then Ok false
      else
        let '(pub_date_start, pub_date_end) :=
          parse_date_range (Some pub_date_str) in
        Ok (date_matches date_start date_end pub_date_start pub_date_end)
  end.

Definition languages_of (pub_language : string) : list string :=
  map (fun lang => lower (strip lang))
      (split_all "|" (replace_char "," "|" pub_language)).

Definition in_languages (languages : option (list string)) (pub : row)
  : result bool :=
  match languages with
  | None => Ok true
  | Some ls =>
      s ← stripped pub "language";
      let pub_language := lower s in
      if is_empty pub_language then Ok false
      else
        let languages_lower := map lower ls in
        Ok (existsb (fun lang => bool_decide (lang ∈ languages_lower))
              (languages_of pub_language))
  end.

(** The body of the loop: whether the publication is appended. *)
Definition keeps (collections : option (list string))
    (date_start date_end : option datetime)
    (languages : option (list string)) (pub : row) : result bool :=
  c ← in_collections collections pub;
  if c : bool then
    d ← in_dates date_start date_end pub;
    if d : bool then in_languages languages pub else Ok false
  else Ok false.

Fixpoint filter_loop (collections : option (list string))
    (date_start date_end : option datetime)
    (languages : option (list string))
    (filtered : list row) (publications : list row) : result (list row) :=
  match publications with
  | [] => Ok filtered
  | pub :: rest =>
      k ← keeps collections date_start date_end languages pub;
      filter_loop collections date_start date_end languages
        (if k : bool then filtered ++ [pub] else filtered) rest
  end.

(** [filter_publications]; an exception of the body is not handled. *)
Definition filter_publications (publications : list row)
    (collections : option (list string))
    (date_start date_end : option datetime)
    (languages : option (list string)) : result (list row) :=
  filter_loop collections date_start date_end languages [] publications.

(** A publication whose date text reads as a range that does not end
    before it starts. *)
Definition ordered_range (pub : row) : Prop :=
  exists t s e,
    pub !! "date" = Some (Some t)
    /\ is_empty (strip t) = false
    /\ parse_date_range (Some (strip t)) = (Some s, Some e)
    /\ le_date s e = true.

End Filter.

(** ** publications/scrape_publications.py: what is left to scrape *)
Module Publications.
Import PyStr Exn.
Export Store.

(** An entry of the main list. *)
Record listed := mklisted { ISSN : string; Title : string; Link : string }.

#[global] Instance listed_eq_dec : EqDecision listed.
Proof. solve_decision. Defined.

Definition scan_issn (existing : gset string) (r : row) : gset string :=
  match truthy_field r "issn" with
  | Some i => {[ i ]} ∪ existing
  | None => existing
  end.

(** [get_existing_issns]; the argument is [None] when OUTPUT_FILE does
    not exist. *)
Definition get_existing_issns (f : option csv_file) : gset string * list string :=
  match f with
  | None => (∅, [])
  | Some file =>
      (fold_left scan_issn (yielded file) ∅,
       match failure file with
       | Some e => ["Warning: Could not read existing CSV: " +:+ e]
       | None => []
       end)
  end.

(** Line 336 of [scrape_publications]. *)
Definition publications_to_scrape (publication_data_list : list listed)
    (existing_issns : gset string) : list listed :=
  filter (fun p => ISSN p ∉ existing_issns) publication_data_list.

End Publications.

(** ** ocr/run_batch_ocr.py: the batches *)
Module Batches.

Definition BATCH_SIZE : nat := 300.

Record batch := mkbatch {
  batch_num : nat;
  total_batches : nat;
  batch_paths : list string
}.

(** The loop over [range(0, total_files, BATCH_SIZE)] from index [i] on;
    [fuel] bounds the iterations and the wrapper supplies the number of
    files, which always suffices. *)
Fixpoint batches_from (fuel i : nat) (relative_target_paths : list string)
  : list batch :=
  match fuel with
  | O => []
  | S f =>
      let total_files := length relative_target_paths in
      if i <? total_files then
        mkbatch (i / BATCH_SIZE + 1)
                ((total_files + BATCH_SIZE - 1) / BATCH_SIZE)
                (take BATCH_SIZE (drop i relative_target_paths))
        :: batches_from f (i + BATCH_SIZE) relative_target_paths
      else []
  end.

Definition batches (relative_target_paths : list string) : list batch :=
  batches_from (length relative_target_paths) 0 relative_target_paths.

End Batches.

(** ** paginate_issues.py: the tally of main *)
Module Tally.
Import PyStr Exn.

Record counts := mkcounts {
  success_count : nat;
  error_count : nat;
  skipped_count : nat;
  failures_log : list string
}.

Definition progress (i total : nat) : string :=
  "[" +:+ Paginate.decimal (i + 1) +:+ "/" +:+ Paginate.decimal total
  +:+ "] (Remaining: " +:+ Paginate.decimal (total - (i + 1)) +:+ ") ".

Definition count_error (c : counts) : counts :=
  mkcounts (success_count c) (S (error_count c)) (skipped_count c)
           (failures_log c).

Section Log.
(** The block that opens [failures_log] for appending and writes one
    line, in iteration [i]: the one of the body of the [try]
    ([false]) or the one of its handler ([true]).  It appends the
    line, or raises before anything is written, as it does while the
    directory of the log is missing. *)
Variable append_log : nat -> bool -> result unit.

Definition log_failure (c : counts) (i : nat) (in_handler : bool)
    (error_msg : string) : result counts :=
  match append_log i in_handler with
  | Ok _ =>
      Ok (mkcounts (success_count c) (error_count c) (skipped_count c)
            (failures_log c ++ [error_msg]))
  | Raise e => Raise e
  end.

(** The handler (lines 183-188); what it raises leaves the loop. *)
Definition critical (total : nat) (c : counts) (i : nat)
    (pdf_path e : string) : result counts :=
  log_failure (count_error c) i true
    (progress i total +:+ "CRITICAL ERROR for " +:+ pdf_path +:+ ": " +:+ e).

(** The body of the loop over the completed futures: [i] is the index
    of the future, [res] what [future.result()] gives or raises.  The
    counter of errors is increased before the log is written, inside
    the [try], so a log write that raises enters the handler with the
    counter already increased. *)
Definition tally_step (total : nat) (c : counts) (i : nat)
    (pdf_path : string) (res : result (bool * string)) : result counts :=
  match res with
  | Ok (true, message) =>
      if contains "Skipped" message
      then Ok (mkcounts (success_count c) (error_count c)
                 (S (skipped_count c)) (failures_log c))
      else Ok (mkcounts (S (success_count c)) (error_count c)
                 (skipped_count c) (failures_log c))
  | Ok (false, message) =>
      match log_failure (count_error c) i false
              (progress i total +:+ "FAILED: " +:+ message) with
      | Ok c' => Ok c'
      | Raise e => critical total (count_error c) i pdf_path e
      end
  | Raise e => critical total c i pdf_path e
  end.

Fixpoint tally_from (total : nat) (c : counts) (i : nat)
    (completed : list (string * result (bool * string))) : result counts :=
  match completed with
  | [] => Ok c
  | (pdf_path, res) :: rest =>
      c' ← tally_step total c i pdf_path res;
      tally_from total c' (S i) rest
  end.

(** The counters after the loop over [as_completed], or the exception
    that left it. *)
Definition tally (completed : list (string * result (bool * string)))
  : result counts :=
  tally_from (length completed) (mkcounts 0 0 0 []) 0 completed.

(** The futures that answered [False] and whose log write in the body
    of the [try] raised. *)
Definition recounted_at (i : nat) (res : result (bool * string)) : bool :=
  match res with
  | Ok (false, _) => raised (append_log i false)
  | _ => false
  end.

Fixpoint recounted_from (i : nat)
    (completed : list (string * result (bool * string))) : nat :=
  match completed with
  | [] => 0
  | (_, res) :: rest =>
      (if recounted_at i res then 1 else 0) + recounted_from (S i) rest
  end.

Definition recounted (completed : list (string * result (bool * string)))
  : nat :=
  recounted_from 0 completed.

End Log.

End Tally.

(** ** Sample inputs for the modules above *)
Module Samples.
Import PyStr Exn.

Definition list_row (issn collection date language issues_link : string)
  : Store.row :=
  {[ "uuid" := Some "p-1"; "issn" := Some issn; "title" := Some "La Voz";
     "collection" := Some collection; "date" := Some date;
     "language" := Some language; "issues_link" := Some issues_link ]}.

(** A list whose second line stops before the link column. *)
Definition truncated_list : Store.csv_file :=
  Store.mkcsv
    [ list_row "0001-0001" "Prensa" "01/03/1850-31/12/1860" "spa" "/hd/es/issues?id=a";
      <["issues_link" := None]>
        (list_row "0002-0002" "Prensa" "01/01/1900-" "spa" "x") ]
    None.

(** A list with padded cells and one row without link. *)
Definition padded_list : Store.csv_file :=
  Store.mkcsv
    [ list_row " 0001-0001 " " Prensa" "01/03/1850-31/12/1860" "spa" " /hd/es/issues?id=a ";
      list_row "0002-0002" "Prensa" "01/01/1900-" "spa" "  " ]
    None.

Definition first_loaded : Resume.publication :=
  Resume.mkpub "p-1" "0001-0001" "Prensa" "La Voz" "/hd/es/issues?id=a".

End Samples.

(** * Properties *)

Module PyStrFacts.
Import PyStr.

Lemma drop_chars_length n s :
  String.length (drop_chars n s) <= String.length s.
Proof.
  revert s. induction n as [|n IH]; intros [|c s]; cbn; try lia.
  specialize (IH s). lia.
Qed.

(** The fuel that [remove] supplies is enough: more fuel changes
    nothing. *)
Lemma remove_go_fuel old s : forall f1 f2,
  is_empty old = false ->
  String.length s <= f1 -> String.length s <= f2 ->
  remove_go f1 old s = remove_go f2 old s.
Proof.
  remember (String.length s) as n eqn:Hn. revert s Hn.
  induction n as [n IH] using lt_wf_ind. intros s Hn f1 f2 Hold H1 H2.
  destruct s as [|a r].
  - by destruct f1, f2.
  - cbn [String.length] in Hn.
    destruct f1 as [|f1]; [lia|]. destruct f2 as [|f2]; [lia|].
    cbn [remove_go]. destruct (startswith old (String a r)).
    + destruct old as [|o old']; [done|]. cbn [String.length drop_chars].
      pose proof (drop_chars_length (String.length old') r) as Hd.
      apply (IH (String.length (drop_chars (String.length old') r)));
        [lia|done|done|lia|lia].
    + f_equal. apply (IH (String.length r)); [lia|done|done|lia|lia].
Qed.

End PyStrFacts.

Module DateRangeFacts.
Import PyStr DateRange.

Lemma app_cons a p x : String a p +:+ x = String a (p +:+ x).
Proof. reflexivity. Qed.

Lemma app_nil x : EmptyString +:+ x = x.
Proof. reflexivity. Qed.

Lemma app_assoc' p q t : p +:+ q +:+ t = (p +:+ q) +:+ t.
Proof.
  induction p as [|a p IH]; [done|]. by rewrite !app_cons, IH.
Qed.

Lemma has_char_app c a b :
  has_char c (a +:+ b) = has_char c a || has_char c b.
Proof.
  induction a as [|x a IH]; [done|].
  rewrite app_cons. cbn [has_char]. rewrite IH. by rewrite orb_assoc.
Qed.

Lemma first_some_elim {A B} (f : A -> option B) l y :
  first_some f l = Some y -> exists x, x ∈ l /\ f x = Some y.
Proof.
  induction l as [|x l IH]; simpl; [done|].
  destruct (f x) as [z|] eqn:E.
  - intros [= <-]. exists x. split; [left | done].
  - intros H. destruct (IH H) as (x' & Hin & Hx'). exists x'. split; [by right | done].
Qed.

Lemma in_range_not_dash lo hi c :
  45 < lo -> in_range lo hi c = true -> Ascii.eqb "-" c = false.
Proof.
  intros Hlo H. unfold in_range in H. apply andb_true_iff in H as [H1 _].
  apply Nat.leb_le in H1.
  destruct (Ascii.eqb_spec "-"%char c) as [<-|]; [|done].
  change (code "-") with 45 in H1. lia.
Qed.

Lemma digit_not_dash c : is_ascii_digit c = true -> Ascii.eqb "-" c = false.
Proof. intros H. apply (in_range_not_dash 48 57); [lia | exact H]. Qed.

Lemma eqb_not_dash a c :
  a <> "-"%char -> Ascii.eqb c a = true -> Ascii.eqb "-" c = false.
Proof.
  intros Hne H. apply Ascii.eqb_eq in H as ->.
  destruct (Ascii.eqb_spec "-"%char a); congruence.
Qed.

Ltac split_ands :=
  repeat match goal with
    | H : _ && _ = true |- _ => apply andb_true_iff in H as [? ?]
    end.

Ltac dash_free :=
  split_ands;
  first [ eapply in_range_not_dash; [|eassumption]; lia
        | apply digit_not_dash; assumption
        | eapply eqb_not_dash; [|eassumption]; discriminate ].

Lemma consumed_2 a b r :
  Ascii.eqb "-" a = false -> Ascii.eqb "-" b = false ->
  consumed (String a (String b r)) r.
Proof. intros Ha Hb. exists (String a (String b EmptyString)). cbn [has_char]. by rewrite Ha, Hb. Qed.

Lemma consumed_1 a r :
  Ascii.eqb "-" a = false -> consumed (String a r) r.
Proof. intros Ha. exists (String a EmptyString). cbn [has_char]. by rewrite Ha. Qed.

Lemma consumed_trans s r t : consumed s r -> consumed r t -> consumed s t.
Proof.
  intros (p & -> & Hp) (q & -> & Hq). exists (p +:+ q). split.
  - apply app_assoc'.
  - rewrite has_char_app, Hp, Hq. done.
Qed.

Lemma day_candidates_consumed s n r :
  (n, r) ∈ day_candidates s -> consumed s r.
Proof.
  destruct s as [|a [|b t]]; unfold day_candidates.
  - by intros ?%elem_of_nil.
  - destruct (in_range 49 57 a) eqn:Ha; [|by intros ?%elem_of_nil].
    intros [= _ <-]%list_elem_of_singleton. apply consumed_1. dash_free.
  - rewrite !elem_of_app.
    intros [H|[H|[H|[H|H]]]];
      match type of H with
      | _ ∈ (if ?c then _ else _) => destruct c eqn:Hc; [|by apply elem_of_nil in H]
      end;
      apply list_elem_of_singleton in H; injection H as _ <-;
      first [ apply consumed_2; dash_free | apply consumed_1; dash_free ].
Qed.

Lemma month_candidates_consumed s n r :
  (n, r) ∈ month_candidates s -> consumed s r.
Proof.
  destruct s as [|a [|b t]]; unfold month_candidates.
  - by intros ?%elem_of_nil.
  - destruct (in_range 49 57 a) eqn:Ha; [|by intros ?%elem_of_nil].
    intros [= _ <-]%list_elem_of_singleton. apply consumed_1. dash_free.
  - rewrite !elem_of_app.
    intros [H|[H|H]];
      match type of H with
      | _ ∈ (if ?c then _ else _) => destruct c eqn:Hc; [|by apply elem_of_nil in H]
      end;
      apply list_elem_of_singleton in H; injection H as _ <-;
      first [ apply consumed_2; dash_free | apply consumed_1; dash_free ].
Qed.

Lemma slash_consumed s r : slash s = Some r -> consumed s r.
Proof.
  destruct s as [|a t]; [done|]. unfold slash.
  destruct (Ascii.eqb_spec a "/"%char) as [->|Hne].
  - intros [= <-]. by apply consumed_1.
  - intros H. exfalso. apply Hne.
    destruct a as [[] [] [] [] [] [] [] []]; try discriminate H. done.
Qed.

Lemma year_match_consumed s y r : year_match s = Some (y, r) -> consumed s r.
Proof.
  destruct s as [|a [|b [|c [|d t]]]]; try done. simpl.
  destruct (_ && _) eqn:H; [|done]. intros [= _ <-].
  apply (consumed_trans _ (String c (String d t))); apply consumed_2; dash_free.
Qed.

Lemma match_dmy_consumed s d m y r :
  match_dmy s = Some (d, m, y, r) -> consumed s r.
Proof.
  unfold match_dmy. intros H.
  apply first_some_elim in H as ([d' r1] & Hd & H).
  destruct (slash r1) as [r2|] eqn:Hs1; [|done]. simpl in H.
  apply first_some_elim in H as ([m' r3] & Hm & H).
  destruct (slash r3) as [r4|] eqn:Hs2; [|done]. simpl in H.
  destruct (year_match r4) as [[y' r5]|] eqn:Hy; [|done]. simpl in H.
  injection H as <- <- <- <-.
  eapply consumed_trans; [by eapply day_candidates_consumed|].
  eapply consumed_trans; [by eapply slash_consumed|].
  eapply consumed_trans; [by eapply month_candidates_consumed|].
  eapply consumed_trans; [by eapply slash_consumed|].
  by eapply year_match_consumed.
Qed.

Lemma strptime_no_dash s d : strptime s = Some d -> has_char "-" s = false.
Proof.
  unfold strptime. destruct (match_dmy s) as [[[[dd m] y] r]|] eqn:H; [|done].
  destruct r; [|done]. intros _.
  apply match_dmy_consumed in H as (pre & -> & Hp).
  by rewrite has_char_app, Hp.
Qed.

Lemma endswith_has_char c s :
  endswith (String c EmptyString) s = true -> has_char c s = true.
Proof.
  induction s as [|a s IH]; cbn [endswith has_char]; [done|].
  intros [H|H]%orb_true_iff.
  - apply String.eqb_eq in H. injection H as -> _. by rewrite Ascii.eqb_refl.
  - rewrite (IH H). by rewrite orb_true_r.
Qed.

Lemma startswith_has_char c s :
  startswith (String c EmptyString) s = true -> has_char c s = true.
Proof.
  destruct s as [|a s]; cbn [startswith has_char]; [done|].
  rewrite andb_true_r. by intros ->.
Qed.

(** With no dash in the stripped text, only the single-date branch runs. *)
Lemma parse_date_range_single_branch raw :
  has_char "-" (strip raw) = false ->
  parse_date_range (Some raw) =
    if is_empty (strip raw) then (None, None) else
    match strptime (strip raw) with
    | Some d => (Some d, Some d)
    | None => (None, None)
    end.
Proof.
  intros Hd. unfold parse_date_range.
  destruct (is_empty (strip raw)); [done|].
  destruct (endswith "-" (strip raw)) eqn:He.
  { apply endswith_has_char in He. congruence. }
  destruct (startswith "-" (strip raw)) eqn:Hs.
  { apply startswith_has_char in Hs. congruence. }
  by rewrite Hd.
Qed.

(** C6. [parse_date_range] gives the listed results on the listed inputs;
    an input without a dash (a single date) has equal start and end; and
    when the stripped input parses as one date, both are that date. *)
Theorem parse_date_range_examples :
  parse_date_range (Some "01/03/1850-31/12/1860")
    = (Some (mkdate 1850 3 1), Some (mkdate 1860 12 31))
  /\ parse_date_range (Some "-31/12/1860") = (None, Some (mkdate 1860 12 31))
  /\ parse_date_range (Some "01/03/1850-") = (Some (mkdate 1850 3 1), None)
  /\ parse_date_range (Some "01/03/1850")
       = (Some (mkdate 1850 3 1), Some (mkdate 1850 3 1))
  /\ parse_date_range (Some EmptyString) = (None, None)
  /\ parse_date_range None = (None, None)
  /\ parse_date_range (Some "not-a-date") = (None, None)
  /\ (forall raw, has_char "-" (strip raw) = false ->
        (parse_date_range (Some raw)).1 = (parse_date_range (Some raw)).2)
  /\ (forall raw d, strptime (strip raw) = Some d ->
        parse_date_range (Some raw) = (Some d, Some d)).
Proof.
  do 7 (split; [vm_compute; reflexivity|]).
  split.
  - intros raw H. rewrite (parse_date_range_single_branch raw H).
    destruct (is_empty _); [done|]. by destruct (strptime _).
  - intros raw d H.
    rewrite (parse_date_range_single_branch raw (strptime_no_dash _ _ H)).
    rewrite H. destruct (strip raw); [done|done].
Qed.

Lemma parse_date_range_examples_witness :
  parse_date_range (Some " 5/7/1901 ")
    = (Some (mkdate 1901 7 5), Some (mkdate 1901 7 5)).
Proof.
  apply (proj2 (proj2 (proj2 (proj2 (proj2 (proj2 (proj2 (proj2
           parse_date_range_examples)))))))).
  vm_compute. reflexivity.
Defined.

End DateRangeFacts.

Module StoreFacts.
Import PyStr Store.

(** The loop seen from any starting pair of locals. *)
Lemma scan_fold_keys rows (st : gset string * option string) u :
  u ∈ (fold_left scan_row rows st).1 <->
  u ∈ st.1 \/ exists r, r ∈ rows /\ truthy_field r "issue_uuid" = Some u.
Proof.
  revert st. induction rows as [|r rows IH]; intros st; simpl.
  - split; [by left|]. intros [H|(r & Hr & _)]; [done|]. by apply elem_of_nil in Hr.
  - rewrite IH. unfold scan_row at 1. simpl. split.
    + intros [H|(r' & Hr' & Hu)].
      * destruct (truthy_field r "issue_uuid") as [v|] eqn:E.
        -- apply elem_of_union in H as [H|H]; [|by left].
           apply elem_of_singleton in H as ->. right. exists r. split; [left|done].
        -- by left.
      * right. exists r'. split; [by right|done].
    + intros [H|(r' & Hr' & Hu)].
      * left. destruct (truthy_field r "issue_uuid"); [|done].
        apply elem_of_union. by right.
      * apply elem_of_cons in Hr' as [->|Hr'].
        -- left. rewrite Hu. apply elem_of_union. left. by apply elem_of_singleton.
        -- right. by exists r'.
Qed.

Lemma omap_cons_eq {A B} (f : A -> option B) x l :
  omap f (x :: l) = match f x with Some y => y :: omap f l | None => omap f l end.
Proof. reflexivity. Qed.

Lemma scan_fold_checkpoint rows (st : gset string * option string) :
  (fold_left scan_row rows st).2 =
    match last (omap (fun r => truthy_field r "publication_issn") rows) with
    | Some i => Some i
    | None => st.2
    end.
Proof.
  revert st. induction rows as [|r rows IH]; intros st; [done|].
  cbn [fold_left]. rewrite IH, omap_cons_eq.
  unfold scan_row at 1. cbn [snd].
  destruct (truthy_field r "publication_issn") as [i|] eqn:E; [|done].
  rewrite last_cons. by destruct (last _).
Qed.

Lemma scan_rows_keys rows u :
  u ∈ (scan_rows rows).1 <->
  exists r, r ∈ rows /\ truthy_field r "issue_uuid" = Some u.
Proof.
  unfold scan_rows. rewrite scan_fold_keys. cbn [fst]. split; [|by right].
  intros [H|H]; [by apply not_elem_of_empty in H | done].
Qed.

Lemma scan_rows_checkpoint rows :
  (scan_rows rows).2 =
    last (omap (fun r => truthy_field r "publication_issn") rows).
Proof.
  unfold scan_rows. rewrite scan_fold_checkpoint. by destruct (last _).
Qed.


(** C3, as worded, fails: the checkpoint is not the value of the last
    row when that value is empty. *)
Lemma last_row_checkpoint_counterexample :
  (get_existing_issue_uuids (Some (mkcsv Scenario.blank_issn_rows None))).1
    <> spec_load_existing_keys Scenario.blank_issn_rows.
Proof.
  intros H. apply (f_equal snd) in H. vm_compute in H. discriminate H.
Qed.

(** C3 (amended). The loader reads the rows from the first to the last
    and returns the set of the non-empty values of the issue_uuid column
    and, as checkpoint, the last non-empty value of the publication_issn
    column; this is the value of the last row whenever that row has a
    non-empty one. *)
Theorem get_existing_issue_uuids_rows rows failure :
  let res := (get_existing_issue_uuids (Some (mkcsv rows failure))).1 in
  (forall u, u ∈ res.1 <->
     exists r, r ∈ rows /\ truthy_field r "issue_uuid" = Some u)
  /\ res.2 = last (omap (fun r => truthy_field r "publication_issn") rows)
  /\ (forall r i, last rows = Some r ->
        truthy_field r "publication_issn" = Some i -> res.2 = Some i).
Proof.
  cbn [get_existing_issue_uuids fst yielded]. split; [|split].
  - intros u. apply scan_rows_keys.
  - apply scan_rows_checkpoint.
  - intros r i Hlast Hi. rewrite scan_rows_checkpoint.
    destruct rows as [|r0 rows _] using rev_ind; [done|].
    rewrite last_snoc in Hlast. injection Hlast as ->.
    rewrite omap_app, omap_cons_eq, Hi.
    change (omap _ (@nil row)) with (@nil string). by rewrite last_snoc.
Qed.

Lemma get_existing_issue_uuids_rows_witness :
  (get_existing_issue_uuids
     (Some (mkcsv [row_of "0001-0001" "u1"; row_of "0002-0002" "u2"] None))).1.2
  = Some "0002-0002".
Proof.
  apply (proj2 (proj2 (get_existing_issue_uuids_rows
           [row_of "0001-0001" "u1"; row_of "0002-0002" "u2"] None))
           (row_of "0002-0002" "u2") "0002-0002").
  - reflexivity.
  - vm_compute. reflexivity.
Defined.

(** C9, as worded, fails: rows read before the failure are kept. *)
Lemma malformed_store_counterexample :
  (get_existing_issue_uuids (Some Scenario.broken_file)).1 <> (∅, None).
Proof.
  intros H. apply (f_equal snd) in H. vm_compute in H. discriminate H.
Qed.

Lemma omap_nil_iff {A B} (f : A -> option B) l :
  omap f l = [] <-> forall x, x ∈ l -> f x = None.
Proof.
  induction l as [|x l IH]; [by split; [intros _ ? ?%elem_of_nil|]|].
  rewrite omap_cons_eq. split.
  - destruct (f x) eqn:E; [done|]. intros H y [->|Hy]%elem_of_cons; [done|].
    by apply IH.
  - intros H. rewrite (H x) by left. apply IH. intros y Hy. apply H. by right.
Qed.

(** The loop returns the fresh-start pair exactly when no row read has a
    non-empty value in either column. *)
Lemma scan_rows_fresh rows :
  scan_rows rows = (∅, None) <->
  forall r, r ∈ rows ->
    truthy_field r "issue_uuid" = None
    /\ truthy_field r "publication_issn" = None.
Proof.
  split.
  - intros H r Hr. split.
    + destruct (truthy_field r "issue_uuid") as [u|] eqn:E; [|done].
      assert (u ∈ (scan_rows rows).1) as Hu by (apply scan_rows_keys; eauto).
      rewrite H in Hu. by apply not_elem_of_empty in Hu.
    + pose proof (scan_rows_checkpoint rows) as Hc. rewrite H in Hc. cbn in Hc.
      symmetry in Hc. apply last_None in Hc. by apply omap_nil_iff with (x := r) in Hc.
  - intros H. destruct (scan_rows rows) as [keys cp] eqn:E. f_equal.
    + apply elem_of_equiv_empty_L. intros u Hu.
      assert (u ∈ (scan_rows rows).1) as Hu' by by rewrite E.
      apply scan_rows_keys in Hu' as (r & Hr & Hru).
      destruct (H r Hr) as [Hn _]. congruence.
    + pose proof (scan_rows_checkpoint rows) as Hc. rewrite E in Hc. cbn in Hc.
      rewrite Hc. apply last_None, omap_nil_iff. intros r Hr. by apply H.
Qed.

(** C9 (amended). A missing file gives the empty key set, no checkpoint
    and no warning.  A file whose reading raises gives one warning and no
    exception, and the keys and checkpoint of the rows read before the
    failure: the set of their non-empty issue_uuid values and the last of
    their non-empty publication_issn values.  This is the fresh-start
    state exactly when none of those rows has a non-empty value in either
    column, as when the failure comes before the first row. *)
Theorem get_existing_issue_uuids_degrades :
  get_existing_issue_uuids None = ((∅, None), [])
  /\ (forall rows e,
        let res := get_existing_issue_uuids (Some (mkcsv rows (Some e))) in
        res.2 = [warning e]
        /\ res.1 = (get_existing_issue_uuids (Some (mkcsv rows None))).1
        /\ (forall u, u ∈ res.1.1 <->
              exists r, r ∈ rows /\ truthy_field r "issue_uuid" = Some u)
        /\ res.1.2 = last (omap (fun r => truthy_field r "publication_issn") rows)
        /\ (res.1 = (∅, None) <->
            forall r, r ∈ rows ->
              truthy_field r "issue_uuid" = None
              /\ truthy_field r "publication_issn" = None))
  /\ (forall e,
        get_existing_issue_uuids (Some (mkcsv [] (Some e)))
        = ((∅, None), [warning e])).
Proof.
  split; [done|]. split; [|done].
  intros rows e. cbn [get_existing_issue_uuids fst snd yielded failure].
  split_and!; [done|done| | |].
  - intros u. apply scan_rows_keys.
  - apply scan_rows_checkpoint.
  - apply scan_rows_fresh.
Qed.

Lemma get_existing_issue_uuids_degrades_witness :
  (get_existing_issue_uuids
     (Some (mkcsv [{[ "issue_name" := Some "n. 1" ]}] (Some "field larger than field limit")))).1
  = (∅, None).
Proof.
  apply (proj2 (proj2 (proj2 (proj2 (proj1 (proj2
           get_existing_issue_uuids_degrades)
           [{[ "issue_name" := Some "n. 1" ]}] "field larger than field limit"))))).
  intros r ->%list_elem_of_singleton. vm_compute. done.
Defined.

End StoreFacts.

Module ResumeFacts.
Import PyStr Resume.





End ResumeFacts.

Module SanitizeFacts.
Import PyStr Sanitize Resume.

Lemma separated_weaken b s : separated b s = true -> separated false s = true.
Proof.
  destruct s as [|c r]; [done|]. cbn [separated].
  destruct (is_dash_or_space c); [|done].
  by intros [_ ->]%andb_true_iff.
Qed.

Lemma separated_tail b c r :
  separated b (String c r) = true -> separated false r = true.
Proof.
  cbn [separated]. destruct (is_dash_or_space c).
  - intros [_ H]%andb_true_iff. by eapply separated_weaken.
  - done.
Qed.

Lemma collapse_go_separated b s : separated b (collapse_go b s) = true.
Proof.
  revert b. induction s as [|c r IH]; intros b; [done|].
  cbn [collapse_go]. destruct (is_dash_or_space c) eqn:Hc.
  - destruct b; [apply IH|]. cbn [separated].
    change (is_dash_or_space dash) with true. cbn [negb andb]. apply IH.
  - cbn [separated]. rewrite Hc. apply IH.
Qed.

Lemma replace_invalid_valid s : any is_invalid (replace_invalid s) = false.
Proof.
  induction s as [|c r IH]; [done|]. cbn [replace_invalid any].
  rewrite IH, orb_false_r. by destruct (is_invalid c) eqn:E.
Qed.

Lemma collapse_go_valid b s :
  any is_invalid s = false -> any is_invalid (collapse_go b s) = false.
Proof.
  revert b. induction s as [|c r IH]; intros b; [done|].
  cbn [any collapse_go]. intros [Hc Hr]%orb_false_iff.
  destruct (is_dash_or_space c); [destruct b|]; cbn [any];
    rewrite ?Hc; try change (is_invalid dash) with false; cbn [orb]; by apply IH.
Qed.

(** Stripping on the left. *)
Lemma lstrip_any p q s : any q s = false -> any q (lstrip_by p s) = false.
Proof.
  induction s as [|c r IH]; [done|]. cbn [lstrip_by].
  destruct (p c); [|done]. cbn [any]. intros [_ Hr]%orb_false_iff. by apply IH.
Qed.

Lemma lstrip_separated p b s :
  separated b s = true -> separated false (lstrip_by p s) = true.
Proof.
  revert b. induction s as [|c r IH]; intros b; [done|]. cbn [lstrip_by].
  destruct (p c).
  - intros H. apply (IH false). by eapply separated_tail.
  - apply separated_weaken.
Qed.

Lemma lstrip_head p c s :
  startswith (one c) (lstrip_by p s) = true -> p c = false.
Proof.
  induction s as [|a r IH]; [done|]. cbn [lstrip_by].
  destruct (p a) eqn:Ha; [done|]. unfold one. cbn [startswith].
  rewrite andb_true_r. intros ->%Ascii.eqb_eq. done.
Qed.

(** Stripping on the right. *)
Lemma rstrip_any p q s : any q s = false -> any q (rstrip_by p s) = false.
Proof.
  induction s as [|c r IH]; [done|]. cbn [rstrip_by any].
  intros [Hc Hr]%orb_false_iff.
  destruct (is_empty (rstrip_by p r) && p c); [done|].
  cbn [any]. rewrite Hc. by apply IH.
Qed.

Lemma rstrip_separated p b s :
  separated b s = true -> separated b (rstrip_by p s) = true.
Proof.
  revert b. induction s as [|c r IH]; intros b; [done|].
  cbn [rstrip_by separated].
  destruct (is_empty (rstrip_by p r) && p c); [done|]. cbn [separated].
  destruct (is_dash_or_space c).
  - intros [-> H]%andb_true_iff. by rewrite IH.
  - apply IH.
Qed.

Lemma rstrip_head p c s :
  startswith (one c) (rstrip_by p s) = true -> startswith (one c) s = true.
Proof.
  destruct s as [|a r]; [done|]. cbn [rstrip_by].
  by destruct (is_empty (rstrip_by p r) && p a).
Qed.

Lemma rstrip_last p c s :
  endswith (one c) (rstrip_by p s) = true -> p c = false.
Proof.
  induction s as [|a r IH]; [done|]. cbn [rstrip_by].
  destruct (is_empty (rstrip_by p r) && p a) eqn:E; [done|].
  cbn [endswith]. intros [H|H]%orb_true_iff; [|by apply IH].
  apply String.eqb_eq in H. injection H as -> Hr. rewrite <- Hr in E.
  cbn [is_empty andb] in E. done.
Qed.

Lemma separated_no_double_dash b s :
  separated b s = true -> contains "--" s = false.
Proof.
  revert b. induction s as [|c r IH]; intros b; [done|].
  intros H. cbn [contains]. rewrite (IH false), orb_false_r
    by (by eapply separated_tail).
  destruct r as [|d r']; cbn [startswith]; [by rewrite andb_false_r|].
  rewrite andb_true_r.
  destruct (Ascii.eqb_spec "-"%char c) as [<-|]; [|done].
  destruct (Ascii.eqb_spec "-"%char d) as [<-|]; [|done].
  exfalso. cbn [separated] in H.
  change (is_dash_or_space "-") with true in H. cbn match in H.
  rewrite andb_false_r in H. done.
Qed.

(** What [sanitize_dirname] returns, for every name: no character of
    the first class, no white space run or dash run (so no two dashes
    in a row), and no dash at either end. *)
Lemma sanitize_dirname_clean name :
  let s := sanitize_dirname name in
  any is_invalid s = false
  /\ contains "--" s = false
  /\ startswith "-" s = false
  /\ endswith "-" s = false.
Proof.
  unfold sanitize_dirname. destruct (is_empty name); [by vm_compute|].
  unfold strip_char, strip_by, collapse. cbn zeta.
  set (t := collapse_go false (replace_invalid name)).
  assert (Hv : any is_invalid t = false)
    by apply collapse_go_valid, replace_invalid_valid.
  assert (Hs : separated false t = true) by apply collapse_go_separated.
  repeat split.
  - by apply rstrip_any, lstrip_any.
  - apply (separated_no_double_dash false), rstrip_separated.
    by eapply lstrip_separated.
  - destruct (startswith _ _) eqn:E; [|done].
    apply (rstrip_head _ dash), lstrip_head in E.
    unfold is_char, dash in E. by rewrite Ascii.eqb_refl in E.
  - destruct (endswith _ _) eqn:E; [|done].
    apply (rstrip_last _ dash) in E.
    unfold is_char, dash in E. by rewrite Ascii.eqb_refl in E.
Qed.

(** The same for the two path segments of an issue directory. *)
Lemma segments_clean pub :
  forall s, s = collection_safe pub \/ s = issn_safe pub ->
  any is_invalid s = false /\ contains "--" s = false
  /\ startswith "-" s = false /\ endswith "-" s = false
  /\ is_empty s = false.
Proof.
  intros s [->| ->]; unfold collection_safe, issn_safe, or_default.
  - pose proof (sanitize_dirname_clean (collection pub)) as H. cbn zeta in H.
    destruct (sanitize_dirname (collection pub)); [by vm_compute|].
    destruct H as (?&?&?&?). done.
  - pose proof (sanitize_dirname_clean (issn pub)) as H. cbn zeta in H.
    destruct (sanitize_dirname (issn pub)); [by vm_compute|].
    destruct H as (?&?&?&?). done.
Qed.

Example sanitize_label :
  sanitize_dirname "Prensa / Guerra: civil *1936*" = "Prensa-Guerra-civil-1936".
Proof. vm_compute. reflexivity. Qed.

(** The fallback literals are reached when the text is not empty and its
    sanitised form is. *)
Lemma emptied_segment_default pub :
  is_empty (sanitize_dirname (collection pub)) = true ->
  collection_safe pub = "unknown_collection".
Proof. unfold collection_safe, or_default. by intros ->. Qed.

(** C7. The segments of a publication whose collection and ISSN are
    empty are both the literal of [sanitize_dirname], where the claim has
    unknown_collection and unknown_issn; a collection made of a slash
    alone does reach unknown_collection. *)
Theorem empty_segment_literal :
  collection_safe Scenario.blank_pub = "unknown"
  /\ issn_safe Scenario.blank_pub = "unknown"
  /\ collection_safe Scenario.blank_pub <> "unknown_collection"
  /\ issn_safe Scenario.blank_pub <> "unknown_issn"
  /\ collection_safe Scenario.slash_pub = "unknown_collection".
Proof. vm_compute. repeat split; discriminate. Qed.

End SanitizeFacts.

Module NamePartsFacts.
Import PyStr Exn NameParts.

Lemma step_answers st part :
  part_fails part = false ->
  step st part = Ok (spec_step st part).
Proof.
  unfold part_fails, spec_step, step.
  destruct (text part) as [raw|e]; [|done].
  destruct (child_strong part) as [[]|e]; [done| |done].
  destruct (ancestor_strong part) as [strong|e]; done.
Qed.

Lemma step_raises part :
  part_fails part = true -> exists e, forall st, step st part = Raise e.
Proof.
  unfold part_fails, step.
  destruct (text part) as [raw|e]; [|by exists e].
  destruct (child_strong part) as [[]|e]; [done| |by exists e].
  destruct (ancestor_strong part) as [strong|e]; [done|by exists e].
Qed.

Lemma loop_answers parts st :
  existsb part_fails parts = false ->
  loop st parts = Ok (fold_left spec_step parts st).
Proof.
  revert st. induction parts as [|part rest IH]; intros st; [done|].
  cbn [existsb]. intros [Hp Hr]%orb_false_iff.
  cbn [loop fold_left]. rewrite (step_answers st part Hp). by apply IH.
Qed.

Lemma loop_raises parts st :
  existsb part_fails parts = true -> exists e, loop st parts = Raise e.
Proof.
  revert st. induction parts as [|part rest IH]; intros st; [done|].
  cbn [existsb loop]. destruct (part_fails part) eqn:Hp.
  - intros _. destruct (step_raises part Hp) as [e He]. exists e. by rewrite He.
  - cbn [orb]. intros Hr. rewrite (step_answers st part Hp). by apply IH.
Qed.

(** C8, as worded, fails: the name is read, the text of the second part
    raises, and the name is lost with the rest. *)
Lemma one_failure_empties_all_counterexample :
  (parse_issue_name_parts (Ok Scenario.stale_parts)).1 = no_fields
  /\ issue_name (spec_extract_fields Scenario.stale_parts) = "El Sol"
  /\ (parse_issue_name_parts (Ok Scenario.stale_parts)).1
     <> spec_extract_fields Scenario.stale_parts.
Proof. vm_compute. repeat split. discriminate. Qed.

(** C8 (amended). [parse_issue_name_parts] always returns four fields
    and never raises.  When a query on any part raises, all four are the
    empty string and one line is printed; when none raises, every part is
    read by its rule. *)
Theorem parse_issue_name_parts_all_or_nothing :
  (forall e, exists line, parse_issue_name_parts (Raise e) = (no_fields, [line]))
  /\ (forall parts, existsb part_fails parts = true ->
        exists line, parse_issue_name_parts (Ok parts) = (no_fields, [line]))
  /\ (forall parts, existsb part_fails parts = false ->
        parse_issue_name_parts (Ok parts) = (spec_extract_fields parts, [])).
Proof.
  split; [|split].
  - intros e. by eexists.
  - intros parts H. unfold parse_issue_name_parts.
    destruct (loop_raises parts no_fields H) as [e He].
    change (name_parts ← Ok parts; loop no_fields name_parts)
      with (loop no_fields parts).
    rewrite He. by eexists.
  - intros parts H. unfold parse_issue_name_parts.
    change (name_parts ← Ok parts; loop no_fields name_parts)
      with (loop no_fields parts).
    by rewrite (loop_answers parts no_fields H).
Qed.

Lemma parse_issue_name_parts_all_or_nothing_witness :
  parse_issue_name_parts
    (Ok [ mkpart (Ok "El Sol") (Ok true) (Ok false);
          mkpart (Ok " 12 enero 1925 ") (Ok false) (Ok false);
          mkpart (Ok (String "n" (String "." (String ordinal " 2.345")))) (Ok false) (Ok false);
          mkpart (Ok (String "8" (String " " paginas))) (Ok false) (Ok false) ])
  = (mkfields "El Sol" "12 enero 1925" "2.345" "8", []).
Proof.
  rewrite (proj2 (proj2 parse_issue_name_parts_all_or_nothing));
    vm_compute; reflexivity.
Defined.

End NamePartsFacts.

Module DownloadFacts.
Import PyStr Exn Download.

Lemma poll_loop_cases obs :
  (exists e, poll_loop obs = Raise e) \/ poll_loop obs = Ok None
  \/ exists f, poll_loop obs = Ok (Some f).
Proof. destruct (poll_loop obs) as [[f|]|e]; eauto. Qed.

(** C4. [download_pdf] always returns a boolean; the fallback starts
    exactly when the direct retrieval raised (the request, or writing the
    body of an OK answer); an answer with another status returns [False]
    without fallback; and when the direct retrieval raised and the
    fallback does not obtain the file, the result is [False]. *)
Theorem download_pdf_fallback_only_on_exception net download_link target_path :
  let '(ev, r) := download_pdf net download_link target_path in
  (exists b, r = Ok b)
  /\ fallback_triggered ev = primary_raised net
  /\ (forall status_code, http_get net = Ok status_code -> status_code <> 200 ->
        r = Ok false /\ fallback_triggered ev = false)
  /\ (primary_raised net = true ->
      (selenium_body net download_link target_path).2 <> Ok (Some true) ->
      r = Ok false).
Proof.
  unfold download_pdf, download_pdf_body, direct_body, selenium_body, primary_raised.
  destruct (http_get net) as [status_code|e1];
    [destruct (status_code =? 200) eqn:Hs;
       [destruct (write_body net) as [[]|e1]|]|];
    try (destruct (find_and_click net) as [[]|e2];
         [destruct (poll_loop (polls net)) as [[f|]|e2];
            [destruct (move_file net) as [[]|e2]| |]|]);
    cbn; split_and!;
    try (by eauto);
    try (intros c Hget Hc; first
           [ discriminate Hget
           | injection Hget as <-; apply Nat.eqb_eq in Hs; done
           | by split ]);
    try (intros Hp Hsel; first [ done | exfalso; by apply Hsel ]).
Qed.

Lemma download_pdf_fallback_only_on_exception_witness :
  download_pdf Scenario.blocked "/hd/es/pdf?id=abc" "/data/issues/abc.pdf"
  = ([Requested "https://hemerotecadigital.bne.es/hd/es/pdf?id=abc"], Ok false).
Proof.
  pose proof (download_pdf_fallback_only_on_exception Scenario.blocked
                "/hd/es/pdf?id=abc" "/data/issues/abc.pdf") as H.
  destruct (download_pdf Scenario.blocked "/hd/es/pdf?id=abc" "/data/issues/abc.pdf")
    as [ev r] eqn:E.
  destruct H as (_ & _ & H & _).
  destruct (H 403 eq_refl ltac:(discriminate)) as [-> _].
  vm_compute in E. by injection E as <-.
Defined.

End DownloadFacts.

Module CrawlFacts.
Import PyStr Exn Crawl.

Lemma process_issue_download_record net data :
  (process_issue_download net data).2.2 = data_record data.
Proof.
  unfold process_issue_download. destruct (pdf_path data); [|done].
  destruct (is_empty (download_link data)); [done|].
  by destruct (Download.download_pdf _ _ _).
Qed.

(** What the loop over the completed futures leaves, for any order. *)
Lemma record_outcomes_spec outs st :
  let st' := fold_left record_outcome outs st in
  trace st' = trace st
  /\ (exists oks fails,
        issues_csv st' = issues_csv st ++ oks
        /\ failures_csv st' = failures_csv st ++ fails
        /\ (forall r, r ∈ oks <-> (true, r) ∈ outs)
        /\ (forall r, r ∈ fails <-> (false, r) ∈ outs))
  /\ (forall u, u ∈ existing_issue_uuids st' <->
        u ∈ existing_issue_uuids st
        \/ exists r, (true, r) ∈ outs /\ issue_uuid r = u).
Proof.
  revert st. induction outs as [|[ok r] outs IH]; intros st; cbn [fold_left].
  - split; [done|]. split.
    + exists [], []. rewrite !app_nil_r. repeat split; intros;
        by match goal with H : _ ∈ [] |- _ => apply elem_of_nil in H end.
    + intros u. split; [by left|]. intros [?|(r & Hr & _)]; [done|].
      by apply elem_of_nil in Hr.
  - set (st1 := record_outcome st (ok, r)).
    destruct (IH st1) as (Ht & (oks & fails & Ho & Hf & Hoks & Hfails) & Hk).
    assert (E1 : trace st1 = trace st) by by destruct ok.
    destruct ok.
    + assert (E2 : issues_csv st1 = issues_csv st ++ [r]) by done.
      assert (E3 : failures_csv st1 = failures_csv st) by done.
      assert (E4 : existing_issue_uuids st1
                   = {[ issue_uuid r ]} ∪ existing_issue_uuids st) by done.
      clearbody st1. rewrite E1 in Ht. rewrite E2 in Ho. rewrite E3 in Hf.
      split; [done|]. split.
      * exists (r :: oks), fails. rewrite Ho, Hf, <- app_assoc.
        split_and!; try done.
        -- intros r'. rewrite !elem_of_cons, Hoks. split.
           ++ intros [->|H]; [by left | by right].
           ++ intros [[= ->]|H]; [by left | by right].
        -- intros r'. rewrite elem_of_cons, Hfails. split; [by right|].
           by intros [[=]|H].
      * intros u. rewrite Hk, E4, elem_of_union, elem_of_singleton. split.
        -- intros [[->|H]|(r' & Hr' & Hu)].
           ++ right. exists r. split; [left | done].
           ++ by left.
           ++ right. exists r'. split; [by right | done].
        -- intros [H|(r' & Hr' & Hu)]; [left; by right|].
           apply elem_of_cons in Hr' as [[= ->]|Hr']; [left; by left|].
           right. by exists r'.
    + assert (E2 : issues_csv st1 = issues_csv st) by done.
      assert (E3 : failures_csv st1 = failures_csv st ++ [r]) by done.
      assert (E4 : existing_issue_uuids st1 = existing_issue_uuids st) by done.
      clearbody st1. rewrite E1 in Ht. rewrite E2 in Ho. rewrite E3 in Hf.
      split; [done|]. split.
      * exists oks, (r :: fails). rewrite Ho, Hf, <- app_assoc.
        split_and!; try done.
        -- intros r'. rewrite elem_of_cons, Hoks. split; [by right|].
           by intros [[=]|H].
        -- intros r'. rewrite !elem_of_cons, Hfails. split.
           ++ intros [->|H]; [by left | by right].
           ++ intros [[= ->]|H]; [by left | by right].
      * intros u. rewrite Hk, E4. split.
        -- intros [H|(r' & Hr' & Hu)]; [by left|].
           right. exists r'. split; [by right | done].
        -- intros [H|(r' & Hr' & Hu)]; [by left|].
           apply elem_of_cons in Hr' as [[=]|Hr']. right. by exists r'.
Qed.

Lemma extends_refl st : extends st st.
Proof.
  exists [], [], []. rewrite !app_nil_r. split_and!; try done;
    intros ? H; by apply elem_of_nil in H.
Qed.

Lemma extends_trans st1 st2 st3 :
  extends st1 st2 -> extends st2 st3 -> extends st1 st3.
Proof.
  intros (e1 & r1 & f1 & Ht1 & Hi1 & Hf1 & Hk1 & Hd1 & Hr1)
         (e2 & r2 & f2 & Ht2 & Hi2 & Hf2 & Hk2 & Hd2 & Hr2).
  exists (e1 ++ e2), (r1 ++ r2), (f1 ++ f2). split_and!.
  - by rewrite Ht2, Ht1, app_assoc.
  - by rewrite Hi2, Hi1, app_assoc.
  - by rewrite Hf2, Hf1, app_assoc.
  - intros u Hu. by apply Hk2, Hk1.
  - intros u. rewrite omap_app. intros [H|H]%elem_of_app; [auto|].
    intros Hu. apply (Hd2 u H). by apply Hk1.
  - intros r Hr.
    assert (r ∈ r1 ++ f1 \/ r ∈ r2 ++ f2) as [H|H].
    { rewrite !elem_of_app in Hr. rewrite !elem_of_app. tauto. }
    + auto.
    + intros Hu. apply (Hr2 r H). by apply Hk1.
Qed.

Lemma extends_known_untouched st st' u :
  extends st st' -> u ∈ existing_issue_uuids st ->
  (u ∉ dispatched_since st st') /\ (u ∉ map issue_uuid (written_since st st')).
Proof.
  intros (ev & rows & fails & Ht & Hi & Hf & Hk & Hd & Hr) Hu.
  unfold dispatched_since, written_since.
  rewrite Ht, Hi, Hf, !drop_app_length. split.
  - intros H. by apply (Hd u).
  - intros (r & -> & Hin)%list_elem_of_fmap. by apply (Hr r).
Qed.

Lemma extends_visit st pub : extends st (visit st pub).
Proof.
  exists [Visit (issn pub)], [], []. unfold visit. cbn.
  rewrite !app_nil_r. split_and!; try done.
  - intros u H. by apply elem_of_nil in H.
  - intros r H. by apply elem_of_nil in H.
Qed.

Section Run.
Variable ISSUES_DIR : string.
Variable uuid4 : nat -> string.
Variable query_id : string -> option string.
Variable network : nat -> Download.network.
Variable as_completed : list (bool * record) -> list (bool * record).
Variable site : publication -> result (list (list article)).

Local Abbreviation collect_article := (collect_article ISSUES_DIR uuid4 query_id).
Local Abbreviation collect_page := (collect_page ISSUES_DIR uuid4 query_id).
Local Abbreviation page_issues := (page_issues ISSUES_DIR uuid4 query_id).
Local Abbreviation page_futures := (page_futures ISSUES_DIR uuid4 query_id network).
Local Abbreviation process_page :=
  (process_page ISSUES_DIR uuid4 query_id network as_completed).
Local Abbreviation crawl_pages :=
  (crawl_pages ISSUES_DIR uuid4 query_id network as_completed).
Local Abbreviation scrape_publication :=
  (scrape_publication ISSUES_DIR uuid4 query_id network as_completed site).
Local Abbreviation scrape_issues :=
  (scrape_issues ISSUES_DIR uuid4 query_id network as_completed site).

Lemma collect_article_spec pub ex n art :
  (forall x, (collect_article pub ex n art).1.1 = Some x ->
     issue_uuid (data_record x) ∉ ex)
  /\ (forall e, e ∈ (collect_article pub ex n art).2 ->
        visit_of e = None /\ dispatch_of e = None).
Proof.
  unfold Crawl.collect_article.
  destruct (issue_candidate _ _ n art) as [c|]; cbn.
  - destruct (decide (cand_uuid c ∈ ex)) as [Hin|Hout]; cbn.
    + split; [done|]. by intros e ->%list_elem_of_singleton.
    + split; [by intros x [= <-]|]. by intros e ?%elem_of_nil.
  - split; [done|]. by intros e ?%elem_of_nil.
Qed.

Lemma collect_page_spec pub ex n articles :
  (forall x, x ∈ (collect_page pub ex n articles).1.1 ->
     issue_uuid (data_record x) ∉ ex)
  /\ (forall e, e ∈ (collect_page pub ex n articles).2 ->
        visit_of e = None /\ dispatch_of e = None).
Proof.
  revert n. induction articles as [|art rest IH]; intros n; cbn [Crawl.collect_page].
  - split; intros ? H; by apply elem_of_nil in H.
  - pose proof (collect_article_spec pub ex n art) as [Ha1 Ha2].
    destruct (collect_article pub ex n art) as [[d n1] ev1].
    specialize (IH n1) as [IH1 IH2].
    destruct (collect_page pub ex n1 rest) as [[ds n2] ev2]. cbn in *.
    split.
    + intros x Hx. destruct d as [y|]; [|by apply IH1].
      apply elem_of_cons in Hx as [->|Hx]; [by apply Ha1 | by apply IH1].
    + intros e [H|H]%elem_of_app; auto.
Qed.

Lemma submit_spec k l :
  map snd (submit network k l).1.1 = map data_record l
  /\ (forall e, e ∈ (submit network k l).2 -> visit_of e = None)
  /\ (forall u, u ∈ omap dispatch_of (submit network k l).2 ->
        exists x, x ∈ l /\ issue_uuid (data_record x) = u).
Proof.
  revert k. induction l as [|data rest IH]; intros k; cbn [submit].
  - repeat split; intros ? H; by apply elem_of_nil in H.
  - specialize (IH (if downloads data then S k else k)) as (IH1 & IH2 & IH3).
    destruct (submit network _ rest) as [[rs k2] ev]. cbn in *.
    rewrite process_issue_download_record, IH1. repeat split.
    + intros e [->|H]%elem_of_cons; [by destruct (downloads data) | auto].
    + intros u Hu. destruct (downloads data); cbn in Hu.
      * apply elem_of_cons in Hu as [->|Hu]; [exists data; split; [left|done]|].
        destruct (IH3 u Hu) as (x & Hx & Hxu). exists x. split; [by right|done].
      * destruct (IH3 u Hu) as (x & Hx & Hxu). exists x. split; [by right|done].
Qed.

Lemma omap_none {A B} (f : A -> option B) l :
  (forall e, e ∈ l -> f e = None) -> omap f l = [].
Proof.
  induction l as [|e l IH]; intros H; [done|].
  change (omap f (e :: l))
    with (match f e with Some y => y :: omap f l | None => omap f l end).
  rewrite (H e) by left. apply IH. intros e' He'. apply H. by right.
Qed.

(** Pages add no visit to the trace, in whatever order futures end. *)
Lemma process_page_visited pub st articles :
  visited (process_page pub st articles) = visited st.
Proof.
  unfold Crawl.process_page, visited.
  pose proof (collect_page_spec pub (existing_issue_uuids st) (uuid_calls st)
                articles) as [_ Hc].
  pose proof (submit_spec (download_calls st) (page_issues pub st articles))
    as (_ & Hs & _).
  destruct (collect_page pub (existing_issue_uuids st) (uuid_calls st) articles)
    as [[ds n] ev1].
  destruct (submit network (download_calls st) (page_issues pub st articles))
    as [[rs k] ev2].
  cbn [fst snd] in Hc, Hs.
  destruct (record_outcomes_spec (as_completed (page_futures pub st articles))
              (mkstate (existing_issue_uuids st) n k (issues_csv st)
                 (failures_csv st) (trace st ++ ev1 ++ ev2))) as (-> & _).
  cbn [trace]. rewrite !omap_app.
  rewrite (omap_none visit_of ev1) by (intros e He; by apply Hc).
  rewrite (omap_none visit_of ev2) by done.
  by rewrite !app_nil_r.
Qed.

Lemma crawl_pages_visited pub st pages :
  visited (crawl_pages pub st pages) = visited st.
Proof.
  revert st. induction pages as [|page rest IH]; intros st; [done|].
  cbn [Crawl.crawl_pages]. destruct page as [|art arts]; [done|].
  by rewrite IH, process_page_visited.
Qed.

Lemma scrape_publication_visited st pub :
  visited (scrape_publication st pub) = visited st ++ [issn pub].
Proof.
  unfold Crawl.scrape_publication.
  destruct (site pub) as [pages|e]; rewrite ?crawl_pages_visited;
    unfold visited, visit; cbn [trace]; by rewrite omap_app.
Qed.

Lemma scrape_publications_visited pubs st :
  visited (fold_left scrape_publication pubs st) = visited st ++ map issn pubs.
Proof.
  revert st. induction pubs as [|pub pubs IH]; intros st; cbn [fold_left map].
  - by rewrite app_nil_r.
  - by rewrite IH, scrape_publication_visited, <- app_assoc.
Qed.

Lemma scrape_issues_visited publications store :
  visited (scrape_issues publications store)
  = map issn (resume_publications
                (Store.get_existing_issue_uuids store).1.2 publications).
Proof.
  unfold Crawl.scrape_issues.
  destruct (Store.get_existing_issue_uuids store) as [[existing last] log].
  cbn [fst snd]. destruct publications as [|p ps].
  - by destruct last as [k|]; [cbn; destruct (is_empty k)|].
  - by rewrite scrape_publications_visited.
Qed.



Lemma collect_page_app pub ex n l1 l2 :
  (collect_page pub ex n (l1 ++ l2)).1.1
  = (collect_page pub ex n l1).1.1
    ++ (collect_page pub ex (collect_page pub ex n l1).1.2 l2).1.1.
Proof.
  revert n. induction l1 as [|art l1 IH]; intros n; [done|].
  cbn [app Crawl.collect_page].
  destruct (collect_article pub ex n art) as [[d n1] ev1].
  specialize (IH n1).
  destruct (collect_page pub ex n1 (l1 ++ l2)) as [[ds n2] ev2].
  destruct (collect_page pub ex n1 l1) as [[ds' n2'] ev2'].
  cbn [fst snd] in *. rewrite IH. by destruct d.
Qed.

Lemma submit_no_download k l data :
  data ∈ l -> pdf_path data = None ->
  (true, data_record data) ∈ (submit network k l).1.1.
Proof.
  revert k. induction l as [|x l IH]; intros k Hin Hp; [by apply elem_of_nil in Hin|].
  cbn [submit]. specialize (IH (if downloads x then S k else k)).
  destruct (submit network _ l) as [[rs k2] ev]. cbn [fst snd] in *.
  apply elem_of_cons in Hin as [<-|Hin]; [|right; by apply IH].
  unfold process_issue_download. rewrite Hp. left.
Qed.

Hypothesis as_completed_perm : forall l, as_completed l ≡ₚ l.

(** One page: the crawl invariant, and the keys of the successful
    futures are in the key set afterwards, their rows in the file. *)
Lemma process_page_spec pub st articles :
  extends st (process_page pub st articles)
  /\ (forall o, o ∈ page_futures pub st articles -> o.1 = true ->
        issue_uuid o.2 ∈ existing_issue_uuids (process_page pub st articles)
        /\ o.2 ∈ issues_csv (process_page pub st articles)).
Proof.
  unfold Crawl.process_page.
  pose proof (collect_page_spec pub (existing_issue_uuids st) (uuid_calls st)
                articles) as [Hc1 Hc2].
  pose proof (submit_spec (download_calls st) (page_issues pub st articles))
    as (Hs1 & Hs2 & Hs3).
  fold (page_futures pub st articles) in Hs1.
  change (collect_page pub (existing_issue_uuids st) (uuid_calls st) articles).1.1
    with (page_issues pub st articles) in Hc1.
  destruct (collect_page pub (existing_issue_uuids st) (uuid_calls st) articles)
    as [[ds n] ev1].
  destruct (submit network (download_calls st) (page_issues pub st articles))
    as [[rs k] ev2].
  cbn [fst snd] in Hc2, Hs2, Hs3.
  set (st0 := mkstate _ _ _ _ _ _).
  destruct (record_outcomes_spec (as_completed (page_futures pub st articles)) st0)
    as (Ht & (oks & fails & Ho & Hf & Hoks & Hfails) & Hk).
  cbn zeta in Ht, Ho, Hf, Hk.
  set (st' := fold_left record_outcome _ st0) in *.
  assert (Hrec : forall ok r, (ok, r) ∈ as_completed (page_futures pub st articles) ->
            exists x, x ∈ page_issues pub st articles /\ data_record x = r).
  { intros ok r H. rewrite as_completed_perm in H.
    assert (r ∈ map snd (page_futures pub st articles)) as Hr.
    { apply list_elem_of_fmap. by exists (ok, r). }
    rewrite Hs1 in Hr. apply list_elem_of_fmap in Hr as (x & -> & Hx). by exists x. }
  split.
  - exists (ev1 ++ ev2), oks, fails. subst st0; cbn in *. split_and!.
    + by rewrite Ht.
    + done.
    + done.
    + intros u Hu. apply Hk. by left.
    + intros u. rewrite omap_app. intros [H|H]%elem_of_app.
      * apply list_elem_of_omap in H as (e & He & Hd).
        destruct (Hc2 e He) as [_ Hn]. congruence.
      * destruct (Hs3 u H) as (x & Hx & <-). by apply Hc1.
    + intros r [H|H]%elem_of_app.
      * apply Hoks in H. destruct (Hrec _ _ H) as (x & Hx & <-). by apply Hc1.
      * apply Hfails in H. destruct (Hrec _ _ H) as (x & Hx & <-). by apply Hc1.
  - intros [ok r] Ho' Hok. cbn in Hok. subst ok. cbn [snd].
    assert ((true, r) ∈ as_completed (page_futures pub st articles)) as Hin
      by by rewrite as_completed_perm.
    split.
    + apply Hk. right. by exists r.
    + rewrite Ho. apply elem_of_app. right. by apply Hoks.
Qed.

Lemma crawl_pages_extends pub st pages :
  extends st (crawl_pages pub st pages).
Proof.
  revert st. induction pages as [|page rest IH]; intros st; cbn [Crawl.crawl_pages].
  - apply extends_refl.
  - destruct page as [|art arts]; [apply extends_refl|].
    eapply extends_trans; [apply process_page_spec | apply IH].
Qed.

Lemma scrape_publication_extends st pub :
  extends st (scrape_publication st pub).
Proof.
  unfold Crawl.scrape_publication. destruct (site pub) as [pages|e].
  - eapply extends_trans; [apply extends_visit | apply crawl_pages_extends].
  - apply extends_visit.
Qed.

Lemma scrape_publications_extends pubs st :
  extends st (fold_left scrape_publication pubs st).
Proof.
  revert st. induction pubs as [|pub pubs IH]; intros st; cbn [fold_left].
  - apply extends_refl.
  - eapply extends_trans; [apply scrape_publication_extends | apply IH].
Qed.

(** C1. Within a run: a candidate whose key is in the key set is
    dropped before any download or row; from any state of the run on,
    through the rest of the publication and the publications after it,
    no key of the set is dispatched or written to either file; the key
    of every future that succeeded is in the set, and its row in the
    success file, when its page is done; and on the following pages
    and publications of the run that key is neither dispatched nor
    written again. *)
Theorem known_issue_never_downloaded_again pub st page rest later :
  let st1 := process_page pub st page in
  let st2 := crawl_pages pub st1 rest in
  let st3 := fold_left scrape_publication later st2 in
  (forall n art c, issue_candidate uuid4 query_id n art = Some c ->
     cand_uuid c ∈ existing_issue_uuids st ->
     collect_article pub (existing_issue_uuids st) n art
     = (None, cand_calls c, [Skip (cand_uuid c)]))
  /\ (forall u, u ∈ existing_issue_uuids st ->
        (u ∉ dispatched_since st st3)
        /\ (u ∉ map issue_uuid (written_since st st3)))
  /\ (forall o, o ∈ page_futures pub st page -> o.1 = true ->
        issue_uuid o.2 ∈ existing_issue_uuids st1
        /\ o.2 ∈ issues_csv st1)
  /\ (forall o, o ∈ page_futures pub st page -> o.1 = true ->
        (issue_uuid o.2 ∉ dispatched_since st1 st3)
        /\ (issue_uuid o.2 ∉ map issue_uuid (written_since st1 st3))).
Proof.
  cbn zeta. destruct (process_page_spec pub st page) as [E Hs].
  assert (E13 : extends (process_page pub st page)
                  (fold_left scrape_publication later
                     (crawl_pages pub (process_page pub st page) rest))).
  { eapply extends_trans;
      [apply crawl_pages_extends | apply scrape_publications_extends]. }
  split_and!.
  - intros n art c Hc Hin. unfold Crawl.collect_article. rewrite Hc.
    by rewrite decide_True.
  - intros u Hu. apply extends_known_untouched; [|done].
    by eapply extends_trans.
  - intros o Ho Hok. by apply Hs.
  - intros o Ho Hok. apply extends_known_untouched; [done|]. by apply Hs.
Qed.

(** C10. An article whose name element is found and that has no
    download link takes the next uuid4 value as key.  When that value
    is not in the key set, the article enters the page with an empty
    issue link and no PDF path, its future succeeds without any
    download, and its row is in the success file after the page. *)
Theorem linkless_item_recorded pub st before art after name_element :
  name_elem art = Ok name_element ->
  default EmptyString (download_href art) = EmptyString ->
  let n := (collect_page pub (existing_issue_uuids st) (uuid_calls st) before).1.2 in
  uuid4 n ∉ existing_issue_uuids st ->
  let f := (NameParts.parse_issue_name_parts name_element).1 in
  let r := mkrecord (issn pub) (uuid4 n) (NameParts.issue_name f)
             (NameParts.date f) (NameParts.number f) (NameParts.pages f)
             EmptyString in
  let data := mkdata EmptyString None r in
  collect_article pub (existing_issue_uuids st) n art = (Some data, S n, [])
  /\ (forall net, process_issue_download net data = ([], (true, r)))
  /\ r ∈ issues_csv (process_page pub st (before ++ art :: after)).
Proof.
  intros Hname Hlink n Hfresh f r data.
  assert (Hc : collect_article pub (existing_issue_uuids st) n art
               = (Some data, S n, [])).
  { unfold Crawl.collect_article, issue_candidate. rewrite Hname, Hlink.
    cbn. by rewrite decide_False. }
  split_and!; [done|done|].
  destruct (process_page_spec pub st (before ++ art :: after)) as [_ Hs].
  apply (Hs (true, r)); [|done].
  apply (submit_no_download _ _ data); [|done].
  unfold Crawl.page_issues. rewrite collect_page_app.
  apply elem_of_app. right. fold n. cbn [Crawl.collect_page]. rewrite Hc.
  destruct (collect_page pub (existing_issue_uuids st) (S n) after) as [[ds n2] ev2].
  left.
Qed.

End Run.

Lemma reverse_order_perm (l : list (bool * record)) :
  Scenario.as_completed l ≡ₚ l.
Proof. apply reverse_Permutation. Qed.

Lemma known_issue_never_downloaded_again_witness :
  "bbb" ∈ existing_issue_uuids Scenario.after_first_page
  /\ ("bbb" ∉ dispatched_since Scenario.after_first_page Scenario.after_run).
Proof.
  destruct (known_issue_never_downloaded_again Scenario.ISSUES_DIR
              Scenario.uuid4 Scenario.query_id Scenario.network
              Scenario.as_completed Scenario.site reverse_order_perm
              Scenario.pub_a Scenario.known_state Scenario.first_page
              Scenario.later_pages [Scenario.pub_b; Scenario.pub_c])
    as (_ & _ & H3 & H4).
  assert (Hin : (true, Scenario.issued "bbb" "n. 2")
                ∈ page_futures Scenario.ISSUES_DIR Scenario.uuid4
                    Scenario.query_id Scenario.network Scenario.pub_a
                    Scenario.known_state Scenario.first_page).
  { vm_compute. left. }
  split.
  - exact (proj1 (H3 _ Hin eq_refl)).
  - exact (proj1 (H4 _ Hin eq_refl)).
Defined.


Lemma linkless_item_recorded_witness :
  mkrecord "0001-0001" (Scenario.uuid4 0) "n. 2"
    EmptyString EmptyString EmptyString EmptyString
  ∈ issues_csv
      (process_page Scenario.ISSUES_DIR Scenario.uuid4 Scenario.query_id
         Scenario.network Scenario.as_completed Scenario.pub_a
         (initial_state ∅)
         ([Scenario.linked "n. 1" "aaa"] ++ Scenario.linkless "n. 2" :: [])).
Proof.
  refine (proj2 (proj2 (linkless_item_recorded Scenario.ISSUES_DIR
            Scenario.uuid4 Scenario.query_id Scenario.network
            Scenario.as_completed reverse_order_perm Scenario.pub_a
            (initial_state ∅) [Scenario.linked "n. 1" "aaa"]
            (Scenario.linkless "n. 2") [] _ eq_refl eq_refl _))).
  apply not_elem_of_empty.
Defined.

End CrawlFacts.

Module PaginateFacts.
Import PyStr Exn Paginate.

Lemma length_app_string a b :
  String.length (a +:+ b) = String.length a + String.length b.
Proof.
  induction a as [|c a IH]; [done|].
  change (String c a +:+ b) with (String c (a +:+ b)). cbn [String.length].
  by rewrite IH.
Qed.

Lemma app_cancel_l p a b : p +:+ a = p +:+ b -> a = b.
Proof.
  induction p as [|c p IH]; [done|].
  change (String c p +:+ ?x) with (String c (p +:+ x)). intros [= H]. by apply IH.
Qed.

Lemma app_cancel_r s a b : a +:+ s = b +:+ s -> a = b.
Proof.
  revert b. induction a as [|c a IH]; intros [|d b] H.
  - done.
  - apply (f_equal String.length) in H. rewrite !length_app_string in H.
    cbn [String.length] in H. cbn in H. lia.
  - apply (f_equal String.length) in H. rewrite !length_app_string in H.
    cbn [String.length] in H. cbn in H. lia.
  - change (String c (a +:+ s) = String d (b +:+ s)) in H.
    injection H as -> H. f_equal. by apply IH.
Qed.

Lemma decimal_inj n m : decimal n = decimal m -> n = m.
Proof.
  unfold decimal. intros H. apply Unsigned.to_uint_inj.
  apply (f_equal NilEmpty.uint_of_string) in H.
  rewrite !NilEmpty.usu in H. by injection H.
Qed.

Lemma page_filename_inj pdf_stem n m :
  page_filename pdf_stem n = page_filename pdf_stem m -> n = m.
Proof.
  unfold page_filename. intros H.
  apply app_cancel_l, app_cancel_l, app_cancel_r in H. by apply decimal_inj.
Qed.

(** The loop writes into a directory that already holds the outputs of
    the pages before [i]. *)
Lemma split_pages_spec pdf_stem pages : forall i (d : directory),
  let d' := split_pages pdf_stem i pages d in
  (forall name c, d !! name = Some c -> d' !! name = Some c)
  /\ (forall j page, pages !! j = Some page ->
        d !! page_filename pdf_stem (i + j + 1) = None ->
        d' !! page_filename pdf_stem (i + j + 1) = Some page)
  /\ (forall name, is_Some (d' !! name) ->
        is_Some (d !! name)
        \/ exists j, j < length pages /\ name = page_filename pdf_stem (i + j + 1)).
Proof.
  induction pages as [|page rest IH]; intros i d; cbn zeta.
  - split_and!; [done| |by left]. intros j page Hj. by rewrite lookup_nil in Hj.
  - cbn [split_pages].
    set (output := page_filename pdf_stem (i + 1)).
    set (d1 := match d !! output with Some _ => d | None => <[output:=page]> d end).
    destruct (IH (S i) d1) as (IH1 & IH2 & IH3).
    assert (Hkeep : forall name c, d !! name = Some c -> d1 !! name = Some c).
    { intros name c H. subst d1. destruct (d !! output) eqn:E; [done|].
      rewrite lookup_insert_ne; [done|]. intros <-. congruence. }
    split_and!.
    + intros name c H. by apply IH1, Hkeep.
    + intros [|j] pg Hj Hnone.
      * injection Hj as ->. replace (i + 0 + 1) with (i + 1) in * by lia.
        fold output in Hnone |- *. apply IH1. subst d1. rewrite Hnone.
        apply lookup_insert_eq.
      * cbn in Hj. replace (i + S j + 1) with (S i + j + 1) in * by lia.
        apply IH2; [done|]. subst d1. destruct (d !! output) eqn:E; [done|].
        rewrite lookup_insert_ne; [done|]. subst output.
        intros H%page_filename_inj. lia.
    + intros name Hsome. destruct (IH3 name Hsome) as [H|(j & Hj & ->)].
      * subst d1. destruct (d !! output) eqn:E; [by left|].
        destruct (decide (output = name)) as [<-|Hne].
        -- right. exists 0. split; [cbn; lia|]. subst output. f_equal. lia.
        -- rewrite lookup_insert_ne in H by done. by left.
      * right. exists (S j). split; [cbn; lia|]. f_equal. lia.
Qed.

Section Split.
Variable fnmatch : string -> string -> bool.

(** C5. For a source of N pages: when the destination directory exists
    and holds exactly N names that match the page pattern, the PDF is
    skipped and the directory is left as it was; otherwise every file
    already there keeps its content, every page whose output name was
    missing gets its output, and nothing else appears. *)
Theorem process_pdf_resumes_by_page pdf_path rel_path pdf_stem pages dest_dir :
  let res := process_pdf fnmatch pdf_path rel_path pdf_stem (Ok pages) dest_dir in
  let before := default ∅ dest_dir in
  (forall d, dest_dir = Some d ->
     length (existing_pages fnmatch pdf_stem d) = length pages ->
     res = ((true, "Skipped (already exists): " +:+ rel_path), dest_dir))
  /\ ((forall d, dest_dir = Some d ->
        length (existing_pages fnmatch pdf_stem d) <> length pages) ->
      exists after,
        res.2 = Some after /\ res.1.1 = true
        /\ (forall name c, before !! name = Some c -> after !! name = Some c)
        /\ (forall j page, pages !! j = Some page ->
              before !! page_filename pdf_stem (j + 1) = None ->
              after !! page_filename pdf_stem (j + 1) = Some page)
        /\ (forall name, is_Some (after !! name) ->
              is_Some (before !! name)
              \/ exists j, j < length pages
                   /\ name = page_filename pdf_stem (j + 1))).
Proof.
  cbn zeta. unfold process_pdf. split.
  - intros d -> Hn. apply Nat.eqb_eq in Hn. by rewrite Hn.
  - intros Hn.
    assert (match dest_dir with
            | Some d => length (existing_pages fnmatch pdf_stem d) =? length pages
            | None => false
            end = false) as ->.
    { destruct dest_dir as [d|]; [|done]. apply Nat.eqb_neq. by apply Hn. }
    eexists. split; [done|]. split; [done|].
    apply (split_pages_spec pdf_stem pages 0).
Qed.

End Split.

Lemma process_pdf_resumes_by_page_witness :
  exists after,
    (process_pdf star_match "/in/x/abc.pdf" "x/abc.pdf" "abc"
       (Ok ["one"; "two"; "three"]) (Some Scenario.partial_dir)).2 = Some after
    /\ after !! "abc-p1.pdf" = Some "kept"
    /\ after !! "abc-p2.pdf" = Some "two".
Proof.
  destruct (proj2 (process_pdf_resumes_by_page star_match "/in/x/abc.pdf"
              "x/abc.pdf" "abc" ["one"; "two"; "three"]
              (Some Scenario.partial_dir)))
    as (after & Hres & _ & Hkeep & Hnew & _).
  - intros d [= <-]. vm_compute. discriminate.
  - exists after. split; [exact Hres|]. split.
    + apply Hkeep. vm_compute. reflexivity.
    + apply (Hnew 1 "two"); [reflexivity|]. vm_compute. reflexivity.
Defined.

End PaginateFacts.

Module StripFacts.
Import PyStr.

Lemma lstrip_fixed p s :
  head_clear p s = true -> lstrip_by p s = s.
Proof. destruct s as [|c r]; [done|]. cbn. by destruct (p c). Qed.

Lemma lstrip_head_clear p s : head_clear p (lstrip_by p s) = true.
Proof.
  induction s as [|c r IH]; [done|]. cbn [lstrip_by].
  destruct (p c) eqn:E; [done|]. cbn. by rewrite E.
Qed.

Lemma rstrip_head_clear p s :
  head_clear p s = true -> head_clear p (rstrip_by p s) = true.
Proof.
  destruct s as [|c r]; [done|]. cbn [rstrip_by].
  by destruct (is_empty (rstrip_by p r) && p c).
Qed.

Lemma rstrip_idem p s : rstrip_by p (rstrip_by p s) = rstrip_by p s.
Proof.
  induction s as [|c r IH]; [done|]. cbn [rstrip_by].
  destruct (is_empty (rstrip_by p r) && p c) eqn:E; [done|].
  cbn [rstrip_by]. rewrite IH. by rewrite E.
Qed.

Lemma strip_by_idem p s : strip_by p (strip_by p s) = strip_by p s.
Proof.
  unfold strip_by.
  rewrite (lstrip_fixed p (rstrip_by p (lstrip_by p s))).
  - apply rstrip_idem.
  - apply rstrip_head_clear, lstrip_head_clear.
Qed.

Lemma strip_idem s : strip (strip s) = strip s.
Proof. apply strip_by_idem. Qed.

End StripFacts.

Module SanitizeMore.
Import PyStr Sanitize Resume SanitizeFacts StripFacts.

Lemma not_separator_not_space c : is_dash_or_space c = false -> isspace c = false.
Proof. unfold is_dash_or_space. by intros [_ H]%orb_false_iff. Qed.

Lemma collapse_go_no_space b s : any isspace (collapse_go b s) = false.
Proof.
  revert b. induction s as [|c r IH]; intros b; [done|]. cbn [collapse_go].
  destruct (is_dash_or_space c) eqn:Hc.
  - destruct b; [apply IH|]. cbn [any].
    change (isspace dash) with false. apply IH.
  - cbn [any]. by rewrite (not_separator_not_space c Hc), IH.
Qed.

Lemma replace_invalid_fixed s : any is_invalid s = false -> replace_invalid s = s.
Proof.
  induction s as [|c r IH]; [done|]. cbn [any replace_invalid].
  intros [Hc Hr]%orb_false_iff. by rewrite Hc, IH.
Qed.

Lemma collapse_go_fixed b s :
  separated b s = true -> any isspace s = false -> collapse_go b s = s.
Proof.
  revert b. induction s as [|c r IH]; intros b; [done|].
  cbn [separated any collapse_go]. intros Hs [Hc Hr]%orb_false_iff.
  destruct (is_dash_or_space c) eqn:Hd.
  - apply andb_true_iff in Hs as [Hb Hs]. destruct b; [done|].
    unfold is_dash_or_space in Hd. rewrite Hc, orb_false_r in Hd.
    apply Ascii.eqb_eq in Hd as ->. by rewrite IH.
  - by rewrite IH.
Qed.

(** The text left after the two substitutions and the trimming. *)
Lemma sanitized_body_fixed name :
  let t := strip_char dash (collapse (replace_invalid name)) in
  strip_char dash (collapse (replace_invalid t)) = t.
Proof.
  cbn zeta. unfold strip_char, collapse.
  set (u := collapse_go false (replace_invalid name)).
  set (t := strip_by (is_char dash) u).
  assert (Hv : any is_invalid t = false).
  { apply rstrip_any, lstrip_any, collapse_go_valid, replace_invalid_valid. }
  assert (Hw : any isspace t = false).
  { apply rstrip_any, lstrip_any, collapse_go_no_space. }
  assert (Hs : separated false t = true).
  { apply rstrip_separated. eapply lstrip_separated, collapse_go_separated. }
  rewrite (replace_invalid_fixed t Hv), (collapse_go_fixed false t Hs Hw).
  apply strip_by_idem.
Qed.

Lemma sanitize_dirname_no_space name :
  any isspace (sanitize_dirname name) = false.
Proof.
  unfold sanitize_dirname. destruct (is_empty name); [by vm_compute|].
  apply rstrip_any, lstrip_any, collapse_go_no_space.
Qed.

(** X1. Whatever the name, [sanitize_dirname] returns a text without
    any of the nine forbidden characters, without white space, without
    two dashes in a row and without a dash at either end. *)
Theorem sanitize_dirname_safe name :
  let s := sanitize_dirname name in
  any is_invalid s = false
  /\ any isspace s = false
  /\ contains "--" s = false
  /\ startswith "-" s = false
  /\ endswith "-" s = false.
Proof.
  destruct (sanitize_dirname_clean name) as (H1 & H2 & H3 & H4).
  cbn zeta. split_and!; try done. apply sanitize_dirname_no_space.
Qed.

(** X2. Sanitising is idempotent on every result that is not empty:
    a directory name that came out of [sanitize_dirname] goes through it
    unchanged. *)
Theorem sanitize_dirname_idempotent name :
  is_empty (sanitize_dirname name) = false ->
  sanitize_dirname (sanitize_dirname name) = sanitize_dirname name.
Proof.
  unfold sanitize_dirname at 1 3 4. destruct (is_empty name) eqn:En.
  - intros _. by vm_compute.
  - intros Ht. unfold sanitize_dirname. rewrite Ht.
    apply sanitized_body_fixed.
Qed.

Lemma sanitize_dirname_idempotent_witness :
  sanitize_dirname (sanitize_dirname "Prensa / Guerra: civil")
  = sanitize_dirname "Prensa / Guerra: civil".
Proof. apply sanitize_dirname_idempotent. vm_compute. reflexivity. Defined.

Lemma separator_after_replace c :
  is_dash_or_space (if is_invalid c then dash else c) = is_separator c.
Proof.
  unfold is_separator. destruct (is_invalid c) eqn:E; [|done].
  by vm_compute.
Qed.

Lemma collapse_all_separators b s :
  all is_dash_or_space s = true ->
  strip_by (is_char dash) (collapse_go b s) = EmptyString.
Proof.
  intros H.
  assert (Hd : all (is_char dash) (collapse_go b s) = true).
  { revert b. induction s as [|c r IH]; intros b; [done|].
    cbn [all] in H. apply andb_true_iff in H as [Hc Hr].
    cbn [collapse_go]. rewrite Hc. destruct b; [by apply IH|].
    cbn [all]. rewrite (IH Hr). by vm_compute. }
  unfold strip_by. revert Hd. generalize (collapse_go b s) as t.
  induction t as [|c t IH]; [done|]. cbn [all lstrip_by].
  intros [-> Ht]%andb_true_iff. by apply IH.
Qed.

Lemma strip_keeps_other p s :
  any (fun c => negb (p c)) s = true ->
  is_empty (strip_by p s) = false.
Proof.
  intros H. unfold strip_by.
  assert (Hl : any (fun c => negb (p c)) (lstrip_by p s) = true).
  { induction s as [|c r IH]; [done|]. cbn [any] in H. cbn [lstrip_by].
    destruct (p c) eqn:E; [|by cbn [any]; rewrite E]. by apply IH. }
  revert Hl. generalize (lstrip_by p s) as t.
  induction t as [|c t IH]; [done|]. cbn [any rstrip_by].
  destruct (p c) eqn:E; cbn [negb orb].
  - intros Ht. specialize (IH Ht).
    by destruct (rstrip_by p t).
  - intros _. by rewrite andb_false_r.
Qed.

Lemma collapse_keeps_other b s :
  any (fun c => negb (is_dash_or_space c)) s = true ->
  any (fun c => negb (is_char dash c)) (collapse_go b s) = true.
Proof.
  revert b. induction s as [|c r IH]; intros b; [done|].
  cbn [any collapse_go]. destruct (is_dash_or_space c) eqn:Hc; cbn [negb orb].
  - intros Hr. destruct b; [by apply IH|]. cbn [any]. rewrite (IH true Hr).
    by rewrite orb_true_r.
  - intros _. cbn [any].
    assert (is_char dash c = false) as ->; [|done].
    unfold is_dash_or_space in Hc. apply orb_false_iff in Hc as [Hc _].
    unfold is_char. by rewrite Ascii.eqb_sym.
Qed.

Lemma all_any_neg p s : all p s = false -> any (fun c => negb (p c)) s = true.
Proof.
  induction s as [|c r IH]; [done|]. cbn [all any].
  destruct (p c); cbn; [apply IH | done].
Qed.

Lemma replace_invalid_all s :
  all is_dash_or_space (replace_invalid s) = all is_separator s.
Proof.
  induction s as [|c r IH]; [done|]. cbn [replace_invalid all].
  by rewrite separator_after_replace, IH.
Qed.

Lemma sanitize_empty_iff name :
  is_empty (sanitize_dirname name) = true <->
  is_empty name = false /\ all is_separator name = true.
Proof.
  unfold sanitize_dirname.
  destruct (is_empty name) eqn:En.
  - split; [by vm_compute | by intros [? _]].
  - unfold strip_char, collapse. rewrite <- replace_invalid_all.
    destruct (all is_dash_or_space (replace_invalid name)) eqn:Ha.
    + rewrite collapse_all_separators by done. done.
    + rewrite strip_keeps_other; [by split; [|intros [_ ?]]|].
      apply collapse_keeps_other. by apply all_any_neg.
Qed.

(** X3. [sanitize_dirname] returns the empty text exactly for the names
    that are not empty and consist only of forbidden characters, dashes
    and white space; the empty name gives the literal unknown. *)
Theorem sanitize_dirname_empty_iff name :
  sanitize_dirname EmptyString = "unknown"
  /\ (is_empty (sanitize_dirname name) = true <->
      is_empty name = false /\ all is_separator name = true).
Proof. split; [done | apply sanitize_empty_iff]. Qed.

Lemma sanitize_dirname_empty_iff_witness :
  is_empty (sanitize_dirname " -/- ") = true.
Proof.
  apply (proj2 (proj2 (sanitize_dirname_empty_iff " -/- "))). by vm_compute.
Defined.

(** X4. For every publication the two directory segments are not
    empty and hold no slash, no backslash and no white space; a
    collection made only of separators becomes unknown_collection, and
    any other non-empty collection becomes its sanitised text. *)
Theorem segments_are_directory_names pub :
  (forall s, s = collection_safe pub \/ s = issn_safe pub ->
     is_empty s = false /\ has_char "/" s = false
     /\ has_char (ascii_of_nat 92) s = false /\ any isspace s = false)
  /\ (is_empty (collection pub) = false ->
      all is_separator (collection pub) = true ->
      collection_safe pub = "unknown_collection")
  /\ (is_empty (collection pub) = false ->
      all is_separator (collection pub) = false ->
      collection_safe pub
      = strip_char dash (collapse (replace_invalid (collection pub)))).
Proof.
  assert (Hc : forall s, any is_invalid s = false ->
            has_char "/" s = false /\ has_char (ascii_of_nat 92) s = false).
  { induction s as [|c r IH]; [done|]. cbn [any has_char].
    intros [Hc Hr]%orb_false_iff. destruct (IH Hr) as [-> ->].
    rewrite !orb_false_r. split.
    - destruct (Ascii.eqb_spec "/"%char c) as [<-|]; [by vm_compute in Hc | done].
    - destruct (Ascii.eqb_spec (ascii_of_nat 92) c) as [<-|]; [by vm_compute in Hc | done]. }
  split_and!.
  - intros s Hs. destruct (segments_clean pub s Hs) as (Hv & _ & _ & _ & Hne).
    destruct (Hc s Hv) as [H1 H2]. split_and!; try done.
    destruct Hs as [-> | ->]; unfold collection_safe, issn_safe, or_default.
    + pose proof (sanitize_dirname_no_space (collection pub)) as Hw.
      by destruct (sanitize_dirname (collection pub)).
    + pose proof (sanitize_dirname_no_space (issn pub)) as Hw.
      by destruct (sanitize_dirname (issn pub)).
  - intros Hne Hall. unfold collection_safe, or_default.
    destruct (sanitize_empty_iff (collection pub)) as [_ H].
    by rewrite (H (conj Hne Hall)).
  - intros Hne Hall. unfold collection_safe, or_default.
    destruct (sanitize_empty_iff (collection pub)) as [H _].
    destruct (is_empty (sanitize_dirname (collection pub))) eqn:E.
    + destruct (H eq_refl) as [_ H']. congruence.
    + unfold sanitize_dirname. by rewrite Hne.
Qed.

Lemma segments_are_directory_names_witness :
  collection_safe Scenario.slash_pub = "unknown_collection".
Proof.
  apply (proj1 (proj2 (segments_are_directory_names Scenario.slash_pub)));
    by vm_compute.
Defined.

End SanitizeMore.

Module DateRangeMore.
Import PyStr DateRange DateRangeFacts StripFacts.

Local Abbreviation one := Sanitize.one.

Lemma app_nil_r_string s : s +:+ EmptyString = s.
Proof. induction s as [|c s IH]; [done|]. by rewrite app_cons, IH. Qed.

Lemma digit_val_le c : is_ascii_digit c = true -> digit_val c <= 9.
Proof.
  unfold is_ascii_digit, digit_val. intros [H1 H2]%andb_true_iff.
  apply Nat.leb_le in H1, H2. lia.
Qed.

Lemma digit_not_space c : is_ascii_digit c = true -> isspace c = false.
Proof.
  unfold is_ascii_digit, isspace. intros [H1 H2]%andb_true_iff.
  apply Nat.leb_le in H1, H2.
  repeat match goal with
         | |- context [?a <=? ?b] => destruct (Nat.leb_spec a b); try lia
         | |- context [?a =? ?b] => destruct (Nat.eqb_spec a b); try lia
         end; done.
Qed.

(** A text that [strptime] accepts: a dash-free prefix, then the four
    digits of the year and nothing more. *)
Lemma strptime_shape s d :
  strptime s = Some d ->
  valid_date (year d) (month d) (day d) = true
  /\ year d < 100 * 100
  /\ has_char "-" s = false
  /\ exists t c, s = t +:+ one c /\ is_ascii_digit c = true.
Proof.
  intros H. pose proof (strptime_no_dash s d H) as Hnd.
  unfold strptime in H.
  destruct (match_dmy s) as [[[[dd m] y] r]|] eqn:Hm; [|done].
  destruct r; [|done].
  destruct (valid_date y m dd) eqn:Hv; [|done]. injection H as <-. cbn.
  unfold match_dmy in Hm.
  apply first_some_elim in Hm as ([d' r1] & Hd & Hm).
  destruct (slash r1) as [r2|] eqn:Hs1; [|done]. cbn in Hm.
  apply first_some_elim in Hm as ([m' r3] & Hmo & Hm).
  destruct (slash r3) as [r4|] eqn:Hs2; [|done]. cbn in Hm.
  destruct (year_match r4) as [[y' r5]|] eqn:Hy; [|done]. cbn in Hm.
  injection Hm as -> -> -> ->.
  assert (Hpre : consumed s r4).
  { eapply consumed_trans; [by eapply day_candidates_consumed|].
    eapply consumed_trans; [by eapply slash_consumed|].
    eapply consumed_trans; [by eapply month_candidates_consumed|].
    by eapply slash_consumed. }
  destruct Hpre as (pre & -> & _).
  destruct r4 as [|a [|b [|c [|e t]]]]; try done. cbn in Hy.
  destruct (is_ascii_digit a && is_ascii_digit b && is_ascii_digit c
            && is_ascii_digit e) eqn:Hdig; [|done].
  injection Hy as <- ->.
  apply andb_true_iff in Hdig as [Hdig He].
  apply andb_true_iff in Hdig as [Hdig Hc].
  apply andb_true_iff in Hdig as [Ha Hb].
  split_and!; try done.
  - pose proof (digit_val_le a Ha). pose proof (digit_val_le b Hb).
    pose proof (digit_val_le c Hc). pose proof (digit_val_le e He). lia.
  - exists (pre +:+ String a (String b (String c EmptyString))), e.
    split; [|done]. unfold one. rewrite <- app_assoc'. done.
Qed.

Lemma parse_date_range_results raw d :
  (parse_date_range (Some raw)).1 = Some d
  \/ (parse_date_range (Some raw)).2 = Some d ->
  exists s, strptime s = Some d.
Proof.
  unfold parse_date_range.
  destruct (is_empty (strip raw)); [by intros [|]|].
  destruct (endswith "-" (strip raw)).
  { destruct (strptime _) as [x|] eqn:E; cbn; intros [[= <-]|[=]]; eauto. }
  destruct (startswith "-" (strip raw)).
  { destruct (strptime _) as [x|] eqn:E; cbn; intros [[=]|[= <-]]; eauto. }
  destruct (has_char "-" (strip raw)).
  { destruct (split_once "-" (strip raw)) as [[p0 p1]|]; [|by intros [|]].
    cbn. intros [H|H].
    - destruct (is_empty (strip p0)); [done|]. eauto.
    - destruct (is_empty (strip p1)); [done|]. eauto. }
  destruct (strptime (strip raw)) as [x|] eqn:E; cbn; intros [[= <-]|[= <-]]; eauto.
Qed.

(** X5. Every date that [parse_date_range] returns, as start or as
    end, is a date of the calendar: the year is between 1 and 9999, the
    month between 1 and 12, and the day exists in that month of that
    year. *)
Theorem parse_date_range_calendar raw d :
  (parse_date_range (Some raw)).1 = Some d
  \/ (parse_date_range (Some raw)).2 = Some d ->
  1 <= year d < 100 * 100 /\ 1 <= month d <= 12
  /\ 1 <= day d <= days_in_month (year d) (month d).
Proof.
  intros H. destruct (parse_date_range_results raw d H) as [s Hs].
  destruct (strptime_shape s d Hs) as (Hv & Hy & _).
  unfold valid_date in Hv.
  repeat match goal with
         | H : _ && _ = true |- _ => apply andb_true_iff in H as [? ?]
         | H : (_ <=? _) = true |- _ => apply Nat.leb_le in H
         end. lia.
Qed.

Lemma parse_date_range_calendar_witness :
  1 <= year (mkdate 1860 12 31) < 100 * 100
  /\ 1 <= month (mkdate 1860 12 31) <= 12
  /\ 1 <= day (mkdate 1860 12 31) <= days_in_month 1860 12.
Proof.
  apply (parse_date_range_calendar "01/03/1850-31/12/1860" (mkdate 1860 12 31)).
  right. vm_compute. reflexivity.
Defined.

(** X6. White space around the text never changes the result. *)
Theorem parse_date_range_ignores_outer_space raw :
  parse_date_range (Some (strip raw)) = parse_date_range (Some raw).
Proof. unfold parse_date_range. by rewrite strip_idem. Qed.

(** X7. The side a text leaves open is absent in the result: a text
    that, stripped, ends with a dash has no end, and one that starts
    with a dash has no start. *)
Theorem parse_date_range_open_side raw :
  (endswith "-" (strip raw) = true -> (parse_date_range (Some raw)).2 = None)
  /\ (startswith "-" (strip raw) = true -> (parse_date_range (Some raw)).1 = None).
Proof.
  unfold parse_date_range. split; intros H.
  - destruct (is_empty (strip raw)); [done|]. rewrite H.
    by destruct (strptime _).
  - destruct (is_empty (strip raw)); [done|].
    destruct (endswith "-" (strip raw)) eqn:He.
    + destruct (strptime (rstrip_char "-" (strip raw))) as [d|] eqn:E; [|done].
      exfalso. pose proof (strptime_no_dash _ _ E) as Hnd.
      destruct (strip raw) as [|c r]; [done|]. cbn [startswith] in H.
      rewrite andb_true_r in H. apply Ascii.eqb_eq in H as <-.
      unfold rstrip_char in E, Hnd. cbn [rstrip_by] in E, Hnd.
      destruct (is_empty (rstrip_by (is_char "-") r) && is_char "-" "-").
      * discriminate E.
      * cbn [has_char] in Hnd. by rewrite Ascii.eqb_refl in Hnd.
    + rewrite H. by destruct (strptime _).
Qed.

Lemma parse_date_range_open_side_witness :
  (parse_date_range (Some " 01/03/1850- ")).2 = None
  /\ (parse_date_range (Some "-31/12/1860")).1 = None.
Proof.
  split.
  - apply (proj1 (parse_date_range_open_side " 01/03/1850- ")). reflexivity.
  - apply (proj2 (parse_date_range_open_side "-31/12/1860")). reflexivity.
Defined.

Lemma is_empty_app_one t c : is_empty (t +:+ one c) = false.
Proof. by destruct t. Qed.

Lemma rstrip_app_last p t c :
  p c = false -> rstrip_by p (t +:+ one c) = t +:+ one c.
Proof.
  intros Hc. induction t as [|a t IH].
  - rewrite app_nil. unfold one. cbn [rstrip_by]. by rewrite Hc, andb_false_r.
  - rewrite app_cons. cbn [rstrip_by]. rewrite IH, is_empty_app_one. done.
Qed.

Lemma rstrip_all p y : all p y = true -> rstrip_by p y = EmptyString.
Proof.
  induction y as [|c y IH]; [done|]. cbn [all rstrip_by].
  intros [-> Hy]%andb_true_iff. by rewrite IH.
Qed.

Lemma rstrip_app_all p x y :
  all p y = true -> rstrip_by p (x +:+ y) = rstrip_by p x.
Proof.
  intros Hy. induction x as [|a x IH].
  - rewrite app_nil. by apply rstrip_all.
  - rewrite app_cons. cbn [rstrip_by]. by rewrite IH.
Qed.

Lemma head_clear_app p x y :
  is_empty x = false -> head_clear p (x +:+ y) = head_clear p x.
Proof. by destruct x. Qed.

Lemma endswith_app_last x t c :
  endswith (one x) (t +:+ one c) = Ascii.eqb x c.
Proof.
  induction t as [|a t IH].
  - rewrite app_nil. unfold one. cbn [endswith is_empty].
    rewrite orb_false_r. destruct (Ascii.eqb_spec x c) as [->|Hne].
    + by rewrite String.eqb_refl.
    + destruct (String.eqb_spec (String x EmptyString) (String c EmptyString))
        as [[= ?]|]; done.
  - rewrite app_cons. cbn [endswith]. rewrite IH.
    destruct (String.eqb_spec (one x) (String a (t +:+ one c))) as [E|]; [|done].
    injection E as _ E. by destruct t.
Qed.

Lemma split_once_app c x y :
  has_char c x = false -> split_once c (x +:+ String c y) = Some (x, y).
Proof.
  induction x as [|a x IH]; intros H.
  - rewrite app_nil. cbn. by rewrite Ascii.eqb_refl.
  - cbn [has_char] in H. apply orb_false_iff in H as [Ha Hx].
    rewrite app_cons. cbn [split_once]. by rewrite Ha, IH.
Qed.

Lemma no_char_head c s :
  has_char c s = false -> head_clear (is_char c) s = true.
Proof.
  destruct s as [|a s]; [done|]. cbn. intros [H _]%orb_false_iff.
  unfold is_char. by rewrite H.
Qed.

(** What a text accepted by [strptime] looks like to the stripping and
    splitting steps. *)
Lemma strptime_text s d :
  strptime s = Some d ->
  is_empty s = false
  /\ has_char "-" s = false
  /\ rstrip_by isspace s = s
  /\ rstrip_by (is_char "-") s = s
  /\ endswith "-" s = false.
Proof.
  intros H. destruct (strptime_shape s d H) as (_ & _ & Hnd & t & c & -> & Hc).
  split_and!.
  - apply is_empty_app_one.
  - done.
  - apply rstrip_app_last. by apply digit_not_space.
  - apply rstrip_app_last. unfold is_char. by apply digit_not_dash.
  - change "-" with (one "-"). rewrite endswith_app_last. by apply digit_not_dash.
Qed.

(** X8. The three shapes of a range are read through [strptime]: for
    texts A and B that [strptime] accepts and that do not start with
    white space, A-B gives both dates, A- gives the start alone, and -B
    the end alone (B may then start with a blank). *)
Theorem parse_date_range_shapes A B a b :
  strptime A = Some a -> strptime B = Some b ->
  head_clear isspace A = true ->
  (head_clear isspace B = true ->
   parse_date_range (Some (A +:+ "-" +:+ B)) = (Some a, Some b))
  /\ parse_date_range (Some (A +:+ "-")) = (Some a, None)
  /\ parse_date_range (Some ("-" +:+ B)) = (None, Some b).
Proof.
  intros HA HB HhA.
  destruct (strptime_text A a HA) as (HAe & HAd & HAs & HAr & HAend).
  destruct (strptime_text B b HB) as (HBe & HBd & HBs & HBr & HBend).
  destruct (strptime_shape B b HB) as (_ & _ & _ & tb & cb & EB & Hcb).
  assert (HstripA : strip A = A).
  { unfold strip, strip_by. by rewrite (lstrip_fixed _ _ HhA). }
  split_and!.
  - intros HhB.
    assert (HstripB : strip B = B).
    { unfold strip, strip_by. by rewrite (lstrip_fixed _ _ HhB). }
    assert (Hstrip : strip (A +:+ "-" +:+ B) = A +:+ "-" +:+ B).
    { unfold strip, strip_by. rewrite lstrip_fixed
        by (by rewrite head_clear_app).
      rewrite EB, !app_assoc'. apply rstrip_app_last.
      by apply digit_not_space. }
    unfold parse_date_range. rewrite Hstrip.
    assert (is_empty (A +:+ "-" +:+ B) = false) as -> by by destruct A.
    assert (endswith "-" (A +:+ "-" +:+ B) = false) as ->.
    { rewrite EB, !app_assoc'. change "-" with (one "-") at 1.
      rewrite endswith_app_last. by apply digit_not_dash. }
    assert (startswith "-" (A +:+ "-" +:+ B) = false) as ->.
    { destruct A as [|c A']; [done|]. rewrite app_cons. cbn [startswith].
      cbn [has_char] in HAd. apply orb_false_iff in HAd as [-> _]. done. }
    assert (has_char "-" (A +:+ "-" +:+ B) = true) as ->.
    { rewrite has_char_app. change ("-" +:+ B) with (String "-" B).
      cbn [has_char]. rewrite Ascii.eqb_refl. by rewrite orb_true_r. }
    change (A +:+ "-" +:+ B) with (A +:+ String "-" B).
    rewrite (split_once_app "-" A B HAd), HstripA, HstripB, HAe, HBe, HA, HB.
    done.
  - assert (Hstrip : strip (A +:+ "-") = A +:+ "-").
    { unfold strip, strip_by. rewrite lstrip_fixed
        by (by rewrite head_clear_app).
      change (A +:+ "-") with (A +:+ one "-"). by apply rstrip_app_last. }
    unfold parse_date_range. rewrite Hstrip.
    assert (is_empty (A +:+ "-") = false) as -> by by destruct A.
    assert (endswith "-" (A +:+ "-") = true) as ->.
    { change (A +:+ "-") with (A +:+ one "-"). change "-" with (one "-") at 1.
      rewrite endswith_app_last. apply Ascii.eqb_refl. }
    unfold rstrip_char. rewrite rstrip_app_all by done.
    by rewrite HAr, HA.
  - assert (Hstrip : strip ("-" +:+ B) = "-" +:+ B).
    { unfold strip, strip_by. rewrite lstrip_fixed by done.
      rewrite EB. change ("-" +:+ tb +:+ one cb) with (String "-" tb +:+ one cb).
      apply rstrip_app_last. by apply digit_not_space. }
    unfold parse_date_range. rewrite Hstrip.
    change (is_empty ("-" +:+ B)) with false. cbn match.
    assert (endswith "-" ("-" +:+ B) = false) as ->.
    { rewrite EB. change ("-" +:+ tb +:+ one cb) with (String "-" tb +:+ one cb).
      change "-" with (one "-") at 1. rewrite endswith_app_last.
      by apply digit_not_dash. }
    change (startswith "-" ("-" +:+ B)) with true. cbn match.
    unfold lstrip_char. change ("-" +:+ B) with (String "-" B).
    cbn [lstrip_by]. unfold is_char at 1. rewrite Ascii.eqb_refl.
    rewrite (lstrip_fixed _ _ (no_char_head "-" B HBd)). by rewrite HB.
Qed.

Lemma parse_date_range_shapes_witness :
  parse_date_range (Some ("1/3/1850" +:+ "-" +:+ "31/12/1860"))
  = (Some (mkdate 1850 3 1), Some (mkdate 1860 12 31)).
Proof.
  apply (proj1 (parse_date_range_shapes "1/3/1850" "31/12/1860"
                  (mkdate 1850 3 1) (mkdate 1860 12 31)
                  ltac:(vm_compute; reflexivity) ltac:(vm_compute; reflexivity)
                  eq_refl)).
  reflexivity.
Defined.

End DateRangeMore.

Module StoreMore.
Import PyStr Store StoreFacts.

(** X9. Reading a file that holds the rows of an earlier file followed
    by appended rows gives the keys of both parts, and the checkpoint of
    the appended part when it has one, else the earlier checkpoint. *)
Theorem get_existing_issue_uuids_appended earlier appended :
  let whole := (get_existing_issue_uuids (Some (mkcsv (earlier ++ appended) None))).1 in
  let old := (get_existing_issue_uuids (Some (mkcsv earlier None))).1 in
  let new := (get_existing_issue_uuids (Some (mkcsv appended None))).1 in
  (forall u, u ∈ whole.1 <-> u ∈ old.1 \/ u ∈ new.1)
  /\ whole.2 = match new.2 with Some c => Some c | None => old.2 end.
Proof.
  cbn [get_existing_issue_uuids fst yielded]. unfold scan_rows.
  rewrite fold_left_app. split.
  - intros u. rewrite !scan_fold_keys. cbn [fst]. split.
    + intros [[H|H]|H]; [by apply not_elem_of_empty in H | left; by right | right; by right].
    + intros [[H|H]|[H|H]]; try (by apply not_elem_of_empty in H).
      * left. by right.
      * by right.
  - rewrite (scan_fold_checkpoint appended (fold_left scan_row earlier (∅, None))).
    rewrite (scan_fold_checkpoint appended (∅, None)).
    by destruct (last _).
Qed.

End StoreMore.

Module ResumeMore.
Import PyStr Resume.

Lemma find_index_split key l i :
  find_index key l = Some i ->
  exists before p after,
    l = before ++ p :: after /\ length before = i /\ issn p = key
    /\ (forall q, q ∈ before -> issn q <> key).
Proof.
  revert i. induction l as [|q l IH]; intros i; [done|]. cbn [find_index].
  destruct (String.eqb_spec (issn q) key) as [E|Hne].
  - intros [= <-]. exists [], q, l. split_and!; try done.
    intros ? H. by apply elem_of_nil in H.
  - destruct (find_index key l) as [j|]; [|done]. intros [= <-].
    destruct (IH j eq_refl) as (before & p & after & -> & <- & Hp & Hb).
    exists (q :: before), p, after. split_and!; try done.
    intros q' [->|H]%elem_of_cons; auto.
Qed.

Lemma resume_suffix last_processed_issn publications :
  exists skipped,
    publications = skipped ++ resume_publications last_processed_issn publications
    /\ (forall q, q ∈ skipped -> Some (issn q) <> last_processed_issn)
    /\ (publications <> [] ->
        resume_publications last_processed_issn publications <> []).
Proof.
  unfold resume_publications.
  assert (Hall : exists skipped : list publication,
             publications = skipped ++ publications
             /\ (forall q, q ∈ skipped -> Some (issn q) <> last_processed_issn)
             /\ (publications <> [] -> publications <> [])).
  { exists []. split_and!; try done. intros ? H. by apply elem_of_nil in H. }
  destruct last_processed_issn as [key|]; [|done].
  destruct (is_empty key); [done|].
  destruct (find_index key publications) as [i|] eqn:E; [|done].
  destruct (find_index_split key publications i E)
    as (before & p & after & -> & <- & Hp & Hb).
  exists before. rewrite drop_app_length. split_and!; try done.
  intros q Hq [= Hk]. by apply (Hb q).
Qed.

(** X10. Whatever the checkpoint, the run processes a suffix of the
    publication list: the order is kept, the publications left out are
    the ones before the first whose ISSN is the checkpoint, and a list
    that is not empty is never reduced to nothing. *)
Theorem resume_publications_suffix last_processed_issn publications :
  exists skipped,
    publications = skipped ++ resume_publications last_processed_issn publications
    /\ (forall q, q ∈ skipped -> Some (issn q) <> last_processed_issn)
    /\ (publications <> [] ->
        resume_publications last_processed_issn publications <> []).
Proof. apply resume_suffix. Qed.

Lemma resume_publications_suffix_witness :
  resume_publications (Some "0002-0002")
    [Scenario.pub_a; Scenario.pub_b; Scenario.pub_c] <> [].
Proof.
  destruct (resume_publications_suffix (Some "0002-0002")
              [Scenario.pub_a; Scenario.pub_b; Scenario.pub_c])
    as (skipped & _ & _ & H).
  apply H. discriminate.
Defined.

End ResumeMore.

Module DownloadMore.
Import PyStr Exn Download.

Ltac settle :=
  intros;
  repeat match goal with
         | H : _ /\ _ |- _ => destruct H
         | H : _ \/ _ |- _ => destruct H
         | H : exists _, _ |- _ => destruct H
         end;
  try congruence; simplify_eq;
  solve [eauto 10 | rewrite ?elem_of_cons; eauto 10].

(** X11. [download_pdf] never raises, and it answers [True] in exactly
    two cases of what the network and the browser do: the request
    answers 200 and the body is written to the target path; or the
    request raises, or answers 200 and the writing raises, and then the
    link is found and clicked, a recent file shows up in the download
    directory within the timeout, and its move to the target path
    succeeds.  In the first case the target path is written, in the
    second the file found is moved there, and in every other case
    nothing is put at the target path. *)
Theorem download_pdf_true_iff_delivered net download_link target_path :
  let res := download_pdf net download_link target_path in
  (res.2 = Ok true \/ res.2 = Ok false)
  /\ (res.2 = Ok true <->
      (http_get net = Ok 200 /\ write_body net = Ok tt)
      \/ (((exists e, http_get net = Raise e)
           \/ (http_get net = Ok 200 /\ exists e, write_body net = Raise e))
          /\ find_and_click net = Ok tt
          /\ (exists f, poll_loop (polls net) = Ok (Some f))
          /\ move_file net = Ok tt))
  /\ (http_get net = Ok 200 -> write_body net = Ok tt ->
      Written target_path ∈ res.1)
  /\ (forall f,
        (exists e, http_get net = Raise e)
        \/ (http_get net = Ok 200 /\ exists e, write_body net = Raise e) ->
        find_and_click net = Ok tt ->
        poll_loop (polls net) = Ok (Some f) ->
        move_file net = Ok tt ->
        Moved f target_path ∈ res.1)
  /\ (res.2 = Ok false -> delivered target_path res.1 = false).
Proof.
  cbn zeta.
  unfold download_pdf, download_pdf_body, direct_body, selenium_body.
  destruct (http_get net) as [status_code|e1];
    [destruct (status_code =? 200) eqn:Hs;
       [apply Nat.eqb_eq in Hs as ->; destruct (write_body net) as [[]|e1]
       |apply Nat.eqb_neq in Hs]|];
    try (destruct (find_and_click net) as [[]|e2];
         [destruct (poll_loop (polls net)) as [[f|]|e2];
            [destruct (move_file net) as [[]|e2]| |]|]);
    cbn; rewrite ?String.eqb_refl; split_and!; try split; settle.
Qed.

Lemma download_pdf_true_iff_delivered_witness :
  let net :=
    mknet (Raise "Read timed out") (Ok tt) (Ok tt)
      [Ok None; Ok (Some "/home/u/Downloads/a.pdf")] (Ok tt) in
  (download_pdf net "/hd/es/pdf?id=aaa" "/srv/bne/aaa.pdf").2 = Ok true
  /\ Moved "/home/u/Downloads/a.pdf" "/srv/bne/aaa.pdf"
     ∈ (download_pdf net "/hd/es/pdf?id=aaa" "/srv/bne/aaa.pdf").1.
Proof.
  cbn zeta.
  destruct (download_pdf_true_iff_delivered
              (mknet (Raise "Read timed out") (Ok tt) (Ok tt)
                 [Ok None; Ok (Some "/home/u/Downloads/a.pdf")] (Ok tt))
              "/hd/es/pdf?id=aaa" "/srv/bne/aaa.pdf")
    as (_ & Hiff & _ & Hmoved & _).
  split.
  - apply Hiff. right. split_and!; try reflexivity.
    + left. by eexists.
    + by eexists.
  - apply Hmoved; try reflexivity. left. by eexists.
Defined.

End DownloadMore.

Module NamePartsMore.
Import PyStr Exn NameParts NamePartsFacts.

Lemma classify_keeps_date st txt strong :
  is_empty (date st) = false -> date (classify st txt strong) = date st.
Proof.
  intros H. unfold classify. destruct strong; [done|].
  destruct (contains paginas (lower txt)); [done|].
  destruct (_ || _); [done|]. rewrite H. done.
Qed.

Lemma step_classifies st part st' :
  step st part = Ok st' -> exists txt strong, st' = classify st txt strong.
Proof.
  unfold step. destruct (text part) as [raw|]; [|done].
  destruct (child_strong part) as [[]|]; [| |done].
  - intros H. exists (strip raw), true.
    change (Ok (classify st (strip raw) true) = Ok st') in H. by injection H.
  - destruct (ancestor_strong part) as [strong|]; [|done].
    intros H. exists (strip raw), strong.
    change (Ok (classify st (strip raw) strong) = Ok st') in H. by injection H.
Qed.

Lemma spec_step_keeps_date st part :
  is_empty (date st) = false -> date (spec_step st part) = date st.
Proof.
  intros H. unfold spec_step. destruct (step st part) as [st'|] eqn:E; [|done].
  destruct (step_classifies st part st' E) as (txt & strong & ->).
  by apply classify_keeps_date.
Qed.

Lemma fold_keeps_date parts st :
  is_empty (date st) = false -> date (fold_left spec_step parts st) = date st.
Proof.
  revert st. induction parts as [|part rest IH]; intros st H; [done|].
  cbn [fold_left]. rewrite IH; rewrite spec_step_keeps_date; done.
Qed.

(** X12. Among the parts of a name the first date wins and the last
    name wins: when no query raises, parts that follow a part taken as
    date never change the date, while a trailing part in bold always
    becomes the issue name. *)
Theorem first_date_last_name parts more txt :
  existsb part_fails (parts ++ more) = false ->
  (is_empty (date (parse_issue_name_parts (Ok parts)).1) = false ->
   date (parse_issue_name_parts (Ok (parts ++ more))).1
   = date (parse_issue_name_parts (Ok parts)).1)
  /\ issue_name
       (parse_issue_name_parts
          (Ok (parts ++ [mkpart (Ok txt) (Ok true) (Ok false)]))).1
     = strip txt.
Proof.
  intros Hok. pose proof Hok as Hok'. rewrite existsb_app in Hok'.
  apply orb_false_iff in Hok' as [Hp Hm].
  assert (Hrun : forall l, existsb part_fails l = false ->
            (parse_issue_name_parts (Ok l)).1 = fold_left spec_step l no_fields).
  { intros l Hl. unfold parse_issue_name_parts.
    change (name_parts ← Ok l; loop no_fields name_parts) with (loop no_fields l).
    by rewrite (loop_answers l no_fields Hl). }
  split.
  - rewrite (Hrun _ Hok), (Hrun _ Hp), fold_left_app. apply fold_keeps_date.
  - rewrite Hrun.
    + by rewrite fold_left_app.
    + rewrite existsb_app, Hp. done.
Qed.

Lemma first_date_last_name_witness :
  date (parse_issue_name_parts
          (Ok ([mkpart (Ok "12 enero 1925") (Ok false) (Ok false)]
               ++ [mkpart (Ok "2a ed. 1926") (Ok false) (Ok false)]))).1
  = "12 enero 1925".
Proof.
  rewrite (proj1 (first_date_last_name
             [mkpart (Ok "12 enero 1925") (Ok false) (Ok false)]
             [mkpart (Ok "2a ed. 1926") (Ok false) (Ok false)]
             "x" eq_refl)); vm_compute; reflexivity.
Defined.

End NamePartsMore.

Module CrawlMore.
Import PyStr Exn Crawl CrawlFacts.

Lemma outcomes_partition (outs : list (bool * record)) :
  filter (fun o => o.1 = true) outs ++ filter (fun o => o.1 = false) outs ≡ₚ outs.
Proof.
  induction outs as [|[[] r] outs IH]; [done| |].
  - rewrite filter_cons_True by done. rewrite filter_cons_False by done.
    cbn. by rewrite IH.
  - rewrite filter_cons_False by done. rewrite filter_cons_True by done.
    rewrite <- Permutation_middle. by rewrite IH.
Qed.

(** The loop over the completed futures, row by row. *)
Lemma record_outcomes_rows outs st :
  let st' := fold_left record_outcome outs st in
  issues_csv st' = issues_csv st ++ map snd (filter (fun o => o.1 = true) outs)
  /\ failures_csv st'
     = failures_csv st ++ map snd (filter (fun o => o.1 = false) outs)
  /\ (forall u, u ∈ existing_issue_uuids st' <->
        u ∈ existing_issue_uuids st
        \/ u ∈ map issue_uuid (map snd (filter (fun o => o.1 = true) outs)))
  /\ trace st' = trace st.
Proof.
  revert st. induction outs as [|[ok r] outs IH]; intros st; cbn [fold_left].
  - rewrite !app_nil_r. split_and!; try done. intros u. split; [by left|].
    intros [H|H]; [done|]. by apply elem_of_nil in H.
  - set (st1 := record_outcome st (ok, r)).
    destruct (IH st1) as (Hi & Hf & Hk & Ht). destruct ok.
    + rewrite filter_cons_True by done. rewrite filter_cons_False by done.
      rewrite Hi, Hf, Ht. cbn [map snd]. split_and!; try done.
      * cbn. by rewrite <- app_assoc.
      * intros u. rewrite Hk. cbn. rewrite elem_of_union, elem_of_singleton,
          elem_of_cons. split; [intros [[->|?]|?] | intros [?|[->|?]]]; auto.
    + rewrite filter_cons_False by done. rewrite filter_cons_True by done.
      rewrite Hi, Hf, Ht. cbn [map snd]. split_and!; try done.
      cbn. by rewrite <- app_assoc.
Qed.

Lemma tracked_refl st : tracked st st.
Proof.
  exists []. rewrite app_nil_r. split; [done|]. intros u. split; [by left|].
  intros [H|H]; [done|]. by apply elem_of_nil in H.
Qed.

Lemma tracked_trans st1 st2 st3 :
  tracked st1 st2 -> tracked st2 st3 -> tracked st1 st3.
Proof.
  intros (r1 & Hi1 & Hk1) (r2 & Hi2 & Hk2). exists (r1 ++ r2). split.
  - by rewrite Hi2, Hi1, app_assoc.
  - intros u. rewrite Hk2, Hk1, map_app, elem_of_app. tauto.
Qed.

Lemma tracked_visit st pub : tracked st (visit st pub).
Proof.
  exists []. unfold visit. cbn. rewrite app_nil_r. split; [done|].
  intros u. split; [by left|]. intros [H|H]; [done|]. by apply elem_of_nil in H.
Qed.

Section Run.
Variable ISSUES_DIR : string.
Variable uuid4 : nat -> string.
Variable query_id : string -> option string.
Variable network : nat -> Download.network.
Variable as_completed : list (bool * record) -> list (bool * record).
Variable site : publication -> result (list (list article)).

Local Abbreviation collect_article := (collect_article ISSUES_DIR uuid4 query_id).
Local Abbreviation collect_page := (collect_page ISSUES_DIR uuid4 query_id).
Local Abbreviation page_issues := (page_issues ISSUES_DIR uuid4 query_id).
Local Abbreviation page_futures := (page_futures ISSUES_DIR uuid4 query_id network).
Local Abbreviation process_page :=
  (process_page ISSUES_DIR uuid4 query_id network as_completed).
Local Abbreviation crawl_pages :=
  (crawl_pages ISSUES_DIR uuid4 query_id network as_completed).
Local Abbreviation scrape_publication :=
  (scrape_publication ISSUES_DIR uuid4 query_id network as_completed site).
Local Abbreviation scrape_issues :=
  (scrape_issues ISSUES_DIR uuid4 query_id network as_completed site).

(** One page, row by row, for any order of completion. *)
Lemma process_page_rows pub st articles :
  let st1 := process_page pub st articles in
  let outs := as_completed (page_futures pub st articles) in
  issues_csv st1
  = issues_csv st ++ map snd (filter (fun o => o.1 = true) outs)
  /\ failures_csv st1
     = failures_csv st ++ map snd (filter (fun o => o.1 = false) outs)
  /\ (forall u, u ∈ existing_issue_uuids st1 <->
        u ∈ existing_issue_uuids st
        \/ u ∈ map issue_uuid (map snd (filter (fun o => o.1 = true) outs))).
Proof.
  cbn zeta. unfold Crawl.process_page.
  destruct (collect_page pub (existing_issue_uuids st) (uuid_calls st) articles)
    as [[ds n] ev1].
  destruct (submit network (download_calls st) (page_issues pub st articles))
    as [[rs k] ev2].
  destruct (record_outcomes_rows (as_completed (page_futures pub st articles))
              (mkstate (existing_issue_uuids st) n k (issues_csv st)
                 (failures_csv st) (trace st ++ ev1 ++ ev2)))
    as (Hi & Hf & Hk & _).
  done.
Qed.

Lemma process_page_tracked pub st articles :
  tracked st (process_page pub st articles).
Proof.
  destruct (process_page_rows pub st articles) as (Hi & _ & Hk).
  eexists. split; [exact Hi | exact Hk].
Qed.

Lemma crawl_pages_tracked pub st pages : tracked st (crawl_pages pub st pages).
Proof.
  revert st. induction pages as [|page rest IH]; intros st; cbn [Crawl.crawl_pages].
  - apply tracked_refl.
  - destruct page as [|art arts]; [apply tracked_refl|].
    eapply tracked_trans; [apply process_page_tracked | apply IH].
Qed.

Lemma scrape_publications_tracked pubs st :
  tracked st (fold_left scrape_publication pubs st).
Proof.
  revert st. induction pubs as [|pub pubs IH]; intros st; cbn [fold_left].
  - apply tracked_refl.
  - eapply tracked_trans; [|apply IH]. unfold Crawl.scrape_publication.
    destruct (site pub) as [pages|e]; [|apply tracked_visit].
    eapply tracked_trans; [apply tracked_visit | apply crawl_pages_tracked].
Qed.

(** X13. At the end of a run over a list that is not empty, the key
    set in memory holds exactly the keys loaded from the issues file
    and the keys of the rows the run appended to it; the keys of
    failed downloads are not in it unless loaded or also written. *)
Theorem key_set_is_loaded_plus_written publications store :
  publications <> [] ->
  let final := scrape_issues publications store in
  forall u,
    u ∈ existing_issue_uuids final <->
    u ∈ (Store.get_existing_issue_uuids store).1.1
    \/ u ∈ map issue_uuid (issues_csv final).
Proof.
  intros Hne. cbn zeta. unfold Crawl.scrape_issues.
  destruct publications as [|p ps]; [done|].
  destruct (Store.get_existing_issue_uuids store) as [[existing last] log].
  cbn [fst snd].
  destruct (scrape_publications_tracked
              (resume_publications last (p :: ps)) (initial_state existing))
    as (rows & Hi & Hk).
  intros u. rewrite Hk, Hi. done.
Qed.

Hypothesis as_completed_perm : forall l, as_completed l ≡ₚ l.

Lemma process_page_written pub st articles :
  written_since st (process_page pub st articles)
  ≡ₚ map data_record (page_issues pub st articles).
Proof.
  destruct (process_page_rows pub st articles) as (Hi & Hf & _).
  unfold written_since. rewrite Hi, Hf, !drop_app_length, <- map_app.
  rewrite outcomes_partition, as_completed_perm.
  destruct (submit_spec network (download_calls st) (page_issues pub st articles))
    as [Hs _].
  unfold Crawl.page_futures. by rewrite Hs.
Qed.

(** X14. Each entry of a page that is not skipped gives exactly one
    row, in the success file or in the failure file: the rows written
    for the page are, up to the order of completion, the records of
    [page_issues], and there are as many of them. *)
Theorem one_row_per_page_issue pub st articles :
  written_since st (process_page pub st articles)
  ≡ₚ map data_record (page_issues pub st articles)
  /\ length (issues_csv (process_page pub st articles))
     + length (failures_csv (process_page pub st articles))
     = length (issues_csv st) + length (failures_csv st)
       + length (page_issues pub st articles).
Proof.
  pose proof (process_page_written pub st articles) as Hw. split; [done|].
  apply Permutation_length in Hw. rewrite length_map in Hw.
  destruct (process_page_rows pub st articles) as (Hi & Hf & _).
  unfold written_since in Hw. rewrite Hi, Hf, !drop_app_length in Hw.
  rewrite Hi, Hf, !length_app. rewrite length_app in Hw. lia.
Qed.

(** X15. A run writes no row, to either file, whose key is already a
    non-empty key of the issues file it loaded. *)
Theorem no_row_for_a_stored_key publications file r row :
  let final := scrape_issues publications (Some file) in
  r ∈ issues_csv final ++ failures_csv final ->
  row ∈ Store.yielded file ->
  Store.truthy_field row "issue_uuid" <> Some (issue_uuid r).
Proof.
  cbn zeta. unfold Crawl.scrape_issues.
  destruct publications as [|p ps].
  { intros H. by apply elem_of_nil in H. }
  cbn [Store.get_existing_issue_uuids fst snd].
  destruct (Store.scan_rows (Store.yielded file)) as [existing last] eqn:Es.
  destruct (scrape_publications_extends ISSUES_DIR uuid4 query_id network
              as_completed site as_completed_perm
              (resume_publications last (p :: ps)) (initial_state existing))
    as (ev & rows & fails & _ & Hi & Hf & _ & _ & Hr).
  rewrite Hi, Hf. cbn [initial_state issues_csv failures_csv app].
  intros Hin Hrow Hu. apply (Hr r Hin). cbn.
  assert (issue_uuid r ∈ (Store.scan_rows (Store.yielded file)).1) as Hk.
  { apply StoreFacts.scan_rows_keys. by exists row. }
  by rewrite Es in Hk.
Qed.

Lemma collect_page_issn pub ex n articles x :
  x ∈ (collect_page pub ex n articles).1.1 ->
  publication_issn (data_record x) = issn pub.
Proof.
  revert n. induction articles as [|art rest IH]; intros n; cbn [Crawl.collect_page].
  - intros H. by apply elem_of_nil in H.
  - destruct (collect_article pub ex n art) as [[d n1] ev1] eqn:Ea.
    specialize (IH n1).
    destruct (collect_page pub ex n1 rest) as [[ds n2] ev2]. cbn in *.
    destruct d as [y|]; [|done].
    intros [->|H]%elem_of_cons; [|by apply IH].
    unfold Crawl.collect_article in Ea.
    destruct (issue_candidate uuid4 query_id n art) as [c|]; [|done].
    destruct (decide (cand_uuid c ∈ ex)); [done|]. by injection Ea as <- _ _.
Qed.

Lemma process_page_attributed pub st articles :
  attributed st -> issn pub ∈ visited st ->
  attributed (process_page pub st articles).
Proof.
  intros Ha Hv r Hr.
  rewrite (process_page_visited ISSUES_DIR uuid4 query_id network as_completed).
  destruct (process_page_rows pub st articles) as (Hi & Hf & _).
  rewrite Hi, Hf in Hr.
  assert (r ∈ issues_csv st ++ failures_csv st
          \/ r ∈ written_since st (process_page pub st articles)) as [H|H].
  { unfold written_since. rewrite Hi, Hf, !drop_app_length.
    rewrite !elem_of_app in Hr. rewrite !elem_of_app. tauto. }
  - by apply Ha.
  - rewrite process_page_written in H.
    apply list_elem_of_fmap in H as (x & -> & Hx).
    by rewrite (collect_page_issn _ _ _ _ _ Hx).
Qed.

Lemma crawl_pages_attributed pub st pages :
  attributed st -> issn pub ∈ visited st ->
  attributed (crawl_pages pub st pages).
Proof.
  revert st. induction pages as [|page rest IH]; intros st Ha Hv; [done|].
  cbn [Crawl.crawl_pages]. destruct page as [|art arts]; [done|].
  apply IH; [by apply process_page_attributed|].
  by rewrite (process_page_visited ISSUES_DIR uuid4 query_id network as_completed).
Qed.

Lemma visit_attributed st pub :
  attributed st ->
  attributed (visit st pub) /\ issn pub ∈ visited (visit st pub).
Proof.
  intros Ha. unfold attributed, visited, visit. cbn [issues_csv failures_csv trace].
  rewrite omap_app. split.
  - intros r Hr. apply elem_of_app. left. by apply Ha.
  - apply elem_of_app. right. left.
Qed.

Lemma scrape_publications_attributed pubs st :
  attributed st -> attributed (fold_left scrape_publication pubs st).
Proof.
  revert st. induction pubs as [|pub pubs IH]; intros st Ha; [done|].
  cbn [fold_left]. apply IH. unfold Crawl.scrape_publication.
  destruct (visit_attributed st pub Ha) as [Hv1 Hv2].
  destruct (site pub) as [pages|e]; [|done].
  by apply crawl_pages_attributed.
Qed.

(** X16. Every row a run writes, to either file, carries the ISSN of
    one of the publications the run processed, so the checkpoint of a
    file written by runs over one list always names a publication of
    that list. *)
Theorem rows_name_processed_publications publications store r :
  let final := scrape_issues publications store in
  r ∈ issues_csv final ++ failures_csv final ->
  exists pub,
    pub ∈ resume_publications
            (Store.get_existing_issue_uuids store).1.2 publications
    /\ pub ∈ publications
    /\ publication_issn r = issn pub.
Proof.
  cbn zeta. intros Hr.
  assert (Hatt : attributed (scrape_issues publications store)).
  { unfold Crawl.scrape_issues. destruct publications as [|p ps].
    - intros r' H. by apply elem_of_nil in H.
    - destruct (Store.get_existing_issue_uuids store) as [[existing last] log].
      apply scrape_publications_attributed. intros r' H.
      by apply elem_of_nil in H. }
  specialize (Hatt r Hr).
  rewrite (scrape_issues_visited ISSUES_DIR uuid4 query_id network
             as_completed site) in Hatt.
  apply list_elem_of_fmap in Hatt as (pub & -> & Hpub).
  exists pub. split_and!; [done| |done].
  destruct (ResumeMore.resume_suffix
              (Store.get_existing_issue_uuids store).1.2 publications)
    as (skipped & Hs & _).
  rewrite Hs. apply elem_of_app. by right.
Qed.

End Run.

Lemma key_set_is_loaded_plus_written_witness :
  "aaa" ∈ existing_issue_uuids
            (scrape_issues Scenario.ISSUES_DIR Scenario.uuid4 Scenario.query_id
               Scenario.network Scenario.as_completed Scenario.site
               [Scenario.pub_a] None).
Proof.
  apply (key_set_is_loaded_plus_written Scenario.ISSUES_DIR Scenario.uuid4
           Scenario.query_id Scenario.network Scenario.as_completed
           Scenario.site [Scenario.pub_a] None).
  - discriminate.
  - right. vm_compute. right. left.
Defined.

Lemma one_row_per_page_issue_witness :
  length (issues_csv Scenario.after_first_page)
  + length (failures_csv Scenario.after_first_page)
  = length (issues_csv Scenario.known_state)
    + length (failures_csv Scenario.known_state)
    + length (page_issues Scenario.ISSUES_DIR Scenario.uuid4 Scenario.query_id
                Scenario.pub_a Scenario.known_state Scenario.first_page).
Proof.
  exact (proj2 (one_row_per_page_issue Scenario.ISSUES_DIR Scenario.uuid4
                  Scenario.query_id Scenario.network Scenario.as_completed
                  CrawlFacts.reverse_order_perm Scenario.pub_a
                  Scenario.known_state Scenario.first_page)).
Defined.

Lemma no_row_for_a_stored_key_witness :
  let final :=
    scrape_issues Scenario.ISSUES_DIR Scenario.uuid4 Scenario.query_id
      Scenario.network Scenario.as_completed Scenario.site [Scenario.pub_a]
      (Some (Store.mkcsv [Store.row_of "0001-0001" "aaa"] None)) in
  mkrecord "0001-0001" (Scenario.uuid4 0) "n. 2"
    EmptyString EmptyString EmptyString EmptyString
  ∈ issues_csv final ++ failures_csv final
  /\ Store.truthy_field (Store.row_of "0001-0001" "aaa") "issue_uuid"
     <> Some (Scenario.uuid4 0).
Proof.
  cbn zeta.
  assert (Hin : mkrecord "0001-0001" (Scenario.uuid4 0) "n. 2"
                  EmptyString EmptyString EmptyString EmptyString
                ∈ issues_csv
                    (scrape_issues Scenario.ISSUES_DIR Scenario.uuid4
                       Scenario.query_id Scenario.network Scenario.as_completed
                       Scenario.site [Scenario.pub_a]
                       (Some (Store.mkcsv [Store.row_of "0001-0001" "aaa"] None)))
                  ++ failures_csv
                       (scrape_issues Scenario.ISSUES_DIR Scenario.uuid4
                          Scenario.query_id Scenario.network Scenario.as_completed
                          Scenario.site [Scenario.pub_a]
                          (Some (Store.mkcsv [Store.row_of "0001-0001" "aaa"] None)))).
  { vm_compute. left. }
  split; [exact Hin|].
  apply (no_row_for_a_stored_key Scenario.ISSUES_DIR Scenario.uuid4
           Scenario.query_id Scenario.network Scenario.as_completed
           Scenario.site CrawlFacts.reverse_order_perm [Scenario.pub_a]
           (Store.mkcsv [Store.row_of "0001-0001" "aaa"] None) _ _ Hin).
  left.
Defined.

Lemma rows_name_processed_publications_witness :
  exists pub,
    pub ∈ resume_publications None [Scenario.pub_a]
    /\ pub ∈ [Scenario.pub_a]
    /\ "0001-0001" = issn pub.
Proof.
  apply (rows_name_processed_publications Scenario.ISSUES_DIR Scenario.uuid4
           Scenario.query_id Scenario.network Scenario.as_completed
           Scenario.site CrawlFacts.reverse_order_perm [Scenario.pub_a] None
           (mkrecord "0001-0001" (Scenario.uuid4 0) "n. 2"
              EmptyString EmptyString EmptyString EmptyString)).
  vm_compute. left.
Defined.

End CrawlMore.

Module PaginateMore.
Import PyStr Exn Paginate PaginateFacts.

Lemma split_pages_present pdf_stem pages : forall i (d : directory),
  (forall j, j < length pages ->
     is_Some (d !! page_filename pdf_stem (i + j + 1))) ->
  split_pages pdf_stem i pages d = d.
Proof.
  induction pages as [|page rest IH]; intros i d H; [done|].
  cbn [split_pages]. destruct (H 0 ltac:(cbn; lia)) as [c Hc].
  replace (i + 0 + 1) with (i + 1) in Hc by lia. rewrite Hc.
  apply IH. intros j Hj. replace (S i + j + 1) with (i + S j + 1) by lia.
  apply H. cbn. lia.
Qed.

Lemma split_pages_complete pdf_stem pages i (d : directory) j :
  j < length pages ->
  is_Some (split_pages pdf_stem i pages d !! page_filename pdf_stem (i + j + 1)).
Proof.
  intros Hj. destruct (split_pages_spec pdf_stem pages i d) as (Hkeep & Hnew & _).
  destruct (d !! page_filename pdf_stem (i + j + 1)) as [c|] eqn:E.
  - exists c. by apply Hkeep.
  - destruct (lookup_lt_is_Some_2 pages j Hj) as [page Hp].
    exists page. by apply Hnew.
Qed.

Section Split.
Variable fnmatch : string -> string -> bool.

(** X17. When [process_pdf] does not skip a readable PDF of N pages,
    and no file operation raises, the destination directory afterwards
    holds an output for each of the N pages. *)
Theorem process_pdf_completes pdf_path rel_path pdf_stem pages dest_dir :
  (forall d, dest_dir = Some d ->
     length (existing_pages fnmatch pdf_stem d) <> length pages) ->
  exists after,
    (process_pdf fnmatch pdf_path rel_path pdf_stem (Ok pages) dest_dir).2
    = Some after
    /\ forall j, j < length pages ->
         is_Some (after !! page_filename pdf_stem (j + 1)).
Proof.
  intros Hn. unfold process_pdf.
  assert (match dest_dir with
          | Some d => length (existing_pages fnmatch pdf_stem d) =? length pages
          | None => false
          end = false) as ->.
  { destruct dest_dir as [d|]; [|done]. apply Nat.eqb_neq. by apply Hn. }
  eexists. split; [done|]. intros j Hj.
  apply (split_pages_complete pdf_stem pages 0 _ j Hj).
Qed.

(** X18. Running [process_pdf] again on the directory it left changes
    nothing there, whether the first run skipped, split, or could not
    read the source (no file operation raising in either run). *)
Theorem process_pdf_idempotent pdf_path rel_path pdf_stem reader dest_dir :
  (process_pdf fnmatch pdf_path rel_path pdf_stem reader
     (process_pdf fnmatch pdf_path rel_path pdf_stem reader dest_dir).2).2
  = (process_pdf fnmatch pdf_path rel_path pdf_stem reader dest_dir).2.
Proof.
  unfold process_pdf. destruct reader as [pages|e]; [|done].
  destruct (match dest_dir with
            | Some d => length (existing_pages fnmatch pdf_stem d) =? length pages
            | None => false
            end) eqn:E1; cbn [snd].
  - by rewrite E1.
  - destruct (length (existing_pages fnmatch pdf_stem _) =? length pages);
      [done|]. cbn [snd default]. f_equal.
    apply split_pages_present. intros j Hj.
    by apply (split_pages_complete pdf_stem pages 0 _ j).
Qed.

End Split.

Lemma process_pdf_completes_witness :
  exists after,
    (process_pdf star_match "/in/x/abc.pdf" "x/abc.pdf" "abc"
       (Ok ["one"; "two"; "three"]) (Some Scenario.partial_dir)).2 = Some after
    /\ is_Some (after !! "abc-p3.pdf").
Proof.
  destruct (process_pdf_completes star_match "/in/x/abc.pdf" "x/abc.pdf" "abc"
              ["one"; "two"; "three"] (Some Scenario.partial_dir))
    as (after & Hres & Hall).
  - intros d [= <-]. vm_compute. discriminate.
  - exists after. split; [exact Hres|]. apply (Hall 2). cbn. lia.
Defined.

End PaginateMore.

Module LoadPublicationsFacts.
Import PyStr Exn Resume LoadPublications StripFacts.

Lemma load_row_readable publications r :
  readable r = true ->
  load_row publications r
  = Ok (publications ++ match as_publication r with Some p => [p] | None => [] end).
Proof.
  unfold readable, load_row, as_publication.
  destruct (stripped r "issues_link") as [link|e]; [|done]. cbn.
  destruct (is_empty link) eqn:El; [by rewrite app_nil_r|]. cbn.
  destruct (stripped r "issn") as [i|]; [|done].
  destruct (stripped r "collection") as [c|]; [|done]. done.
Qed.

Lemma load_row_unreadable publications r :
  readable r = false -> exists e, load_row publications r = Raise e.
Proof.
  unfold readable, load_row.
  destruct (stripped r "issues_link") as [link|e]; [|by exists e]. cbn.
  destruct (is_empty link); [done|]. cbn.
  destruct (stripped r "issn") as [i|e]; [|by exists e].
  destruct (stripped r "collection") as [c|e]; [done|by exists e].
Qed.

Lemma load_rows_readable rows publications :
  forallb readable rows = true ->
  load_rows publications rows = Ok (publications ++ omap as_publication rows).
Proof.
  revert publications. induction rows as [|r rows IH]; intros acc H.
  - by rewrite app_nil_r.
  - cbn [forallb] in H. apply andb_true_iff in H as [Hr Hrows].
    cbn [load_rows]. rewrite (load_row_readable acc r Hr). cbn.
    change (mbind ?f (Ok ?x)) with (f x). cbn beta.
    rewrite (IH _ Hrows), <- app_assoc. f_equal.
    change (omap as_publication (r :: rows))
      with (match as_publication r with
            | Some y => y :: omap as_publication rows
            | None => omap as_publication rows
            end).
    by destruct (as_publication r).
Qed.

Lemma load_rows_unreadable rows publications :
  forallb readable rows = false -> exists e, load_rows publications rows = Raise e.
Proof.
  revert publications. induction rows as [|r rows IH]; intros acc H; [done|].
  cbn [forallb] in H. cbn [load_rows]. destruct (readable r) eqn:Hr.
  - rewrite (load_row_readable acc r Hr).
    change (mbind ?f (Ok ?x)) with (f x). cbn beta. by apply IH.
  - destruct (load_row_unreadable acc r Hr) as [e ->]. by exists e.
Qed.

(** X19. [load_publications] is all or nothing: when reading the file
    raises, or a row has a short line in a column the loop strips, the
    result is the empty list whatever was read before; otherwise it is
    the list of the rows whose link is not blank, in file order. *)
Theorem load_publications_all_or_nothing file :
  (failure file <> None \/ forallb readable (yielded file) = false ->
   (load_publications (Some file)).1 = [])
  /\ (failure file = None -> forallb readable (yielded file) = true ->
      (load_publications (Some file)).1 = omap as_publication (yielded file)).
Proof.
  unfold load_publications. split.
  - intros [Hf|Hr].
    + destruct (load_rows [] (yielded file)); [|done].
      by destruct (failure file).
    + destruct (load_rows_unreadable _ [] Hr) as [e ->]. done.
  - intros -> Hr. by rewrite (load_rows_readable _ [] Hr).
Qed.

Lemma load_publications_all_or_nothing_witness :
  (load_publications (Some Samples.truncated_list)).1 = [].
Proof.
  apply (proj1 (load_publications_all_or_nothing Samples.truncated_list)).
  right. vm_compute. reflexivity.
Defined.

Lemma strip_text_of m :
  (forall v, m = Ok v -> strip v = v) -> strip (text_of m) = text_of m.
Proof. destruct m as [v|]; [|done]. intros H. by apply H. Qed.

Lemma stripped_is_stripped r k v : stripped r k = Ok v -> strip v = v.
Proof.
  unfold stripped. destruct (r !! k) as [[x|]|]; [| done |].
  - intros [= <-]. apply strip_idem.
  - by intros [= <-].
Qed.

(** X20. Every publication that [load_publications] returns has a link
    that is not blank, and its link, ISSN and collection carry no white
    space at either end. *)
Theorem loaded_publications_are_stripped f p :
  p ∈ (load_publications f).1 ->
  is_empty (issues_link p) = false
  /\ strip (issues_link p) = issues_link p
  /\ strip (issn p) = issn p
  /\ strip (collection p) = collection p.
Proof.
  destruct f as [file|]; [|by intros ?%elem_of_nil].
  destruct (forallb readable (yielded file)) eqn:Hr.
  - unfold load_publications. rewrite (load_rows_readable _ [] Hr).
    destruct (failure file); [by intros ?%elem_of_nil|]. cbn [fst app].
    intros (r & _ & Hp)%list_elem_of_omap. unfold as_publication in Hp.
    destruct (is_empty (text_of (stripped r "issues_link"))) eqn:El; [done|].
    injection Hp as <-. cbn. split_and!; try done;
      apply strip_text_of; intros v Hv; by eapply stripped_is_stripped.
  - unfold load_publications.
    destruct (load_rows_unreadable _ [] Hr) as [e ->]. by intros ?%elem_of_nil.
Qed.

Lemma loaded_publications_are_stripped_witness :
  strip (issn Samples.first_loaded) = issn Samples.first_loaded.
Proof.
  apply (loaded_publications_are_stripped (Some Samples.padded_list)
           Samples.first_loaded).
  vm_compute. left.
Defined.

End LoadPublicationsFacts.

Module FilterFacts.
Import PyStr Exn DateRange Filter.

Ltac order_cases :=
  unfold le_date in *;
  repeat match goal with
         | H : _ || _ = true |- _ => apply orb_true_iff in H as [H|H]
         | H : _ && _ = true |- _ => apply andb_true_iff in H as [? ?]
         | H : _ || _ = false |- _ => apply orb_false_iff in H as [? ?]
         | H : _ && _ = false |- _ => apply andb_false_iff in H as [H|H]
         | H : (_ <? _) = true |- _ => apply Nat.ltb_lt in H
         | H : (_ <? _) = false |- _ => apply Nat.ltb_ge in H
         | H : (_ =? _) = true |- _ => apply Nat.eqb_eq in H
         | H : (_ =? _) = false |- _ => apply Nat.eqb_neq in H
         | H : (_ <=? _) = true |- _ => apply Nat.leb_le in H
         | H : (_ <=? _) = false |- _ => apply Nat.leb_gt in H
         end.

Ltac order_goal :=
  unfold le_date;
  repeat match goal with
         | |- context [?a <? ?b] => destruct (Nat.ltb_spec a b)
         | |- context [?a =? ?b] => destruct (Nat.eqb_spec a b)
         | |- context [?a <=? ?b] => destruct (Nat.leb_spec a b)
         end; cbn; try done; try lia.

Lemma le_date_trans a b c :
  le_date a b = true -> le_date b c = true -> le_date a c = true.
Proof. intros H1 H2. order_cases; order_goal. Qed.

Lemma le_date_total a b : le_date a b = false -> le_date b a = true.
Proof. intros H. order_cases; order_goal. Qed.

Lemma one_bound_matches bound s e :
  le_date s e = true ->
  date_matches (Some bound) None (Some s) (Some e) = true
  /\ date_matches None (Some bound) (Some s) (Some e) = true.
Proof.
  intros Hse. unfold date_matches. split.
  - destruct (le_date s bound) eqn:E; [done|]. cbn.
    apply le_date_total in E. by eapply le_date_trans.
  - destruct (le_date bound e) eqn:E; [done|]. cbn.
    apply le_date_total in E. by eapply le_date_trans.
Qed.

Lemma keeps_ordered_range bound pub :
  ordered_range pub ->
  keeps None (Some bound) None None pub = Ok true
  /\ keeps None None (Some bound) None pub = Ok true.
Proof.
  intros (t & s & e & Ht & Hne & Hp & Hse).
  destruct (one_bound_matches bound s e Hse) as [H1 H2].
  unfold keeps, in_collections.
  change (mbind ?f (Ok true)) with (f true). cbn beta iota.
  unfold in_dates, stripped. rewrite Ht.
  change (mbind ?f (Ok (strip t))) with (f (strip t)). cbn beta.
  rewrite Hne, Hp, H1, H2.
  change (mbind ?f (Ok true)) with (f true). cbn beta iota. done.
Qed.

Lemma filter_loop_all c ds de ls pubs acc :
  (forall pub, pub ∈ pubs -> keeps c ds de ls pub = Ok true) ->
  filter_loop c ds de ls acc pubs = Ok (acc ++ pubs).
Proof.
  revert acc. induction pubs as [|pub rest IH]; intros acc H.
  - by rewrite app_nil_r.
  - cbn [filter_loop]. rewrite (H pub) by left.
    change (mbind ?f (Ok ?x)) with (f x). cbn beta iota.
    rewrite IH, <- app_assoc; [done|]. intros p Hp. apply H. by right.
Qed.

(** X21. With a single date bound the date filter lets every ordered
    range through: if each publication has a date text that reads as a
    range whose start is not after its end, then filtering by
    [date_start] alone, or by [date_end] alone, returns the whole list
    whatever the bound. *)
Theorem one_date_bound_keeps_all publications bound :
  (forall pub, pub ∈ publications -> ordered_range pub) ->
  filter_publications publications None (Some bound) None None = Ok publications
  /\ filter_publications publications None None (Some bound) None = Ok publications.
Proof.
  intros H. unfold filter_publications. split.
  - rewrite filter_loop_all; [done|]. intros pub Hp.
    by apply keeps_ordered_range, H.
  - rewrite filter_loop_all; [done|]. intros pub Hp.
    by apply keeps_ordered_range, H.
Qed.

Lemma one_date_bound_keeps_all_witness :
  filter_publications
    [Samples.list_row "0001-0001" "Prensa" "01/03/1850-31/12/1860" "spa" "x"]
    None (Some (mkdate 1950 1 1)) None None
  = Ok [Samples.list_row "0001-0001" "Prensa" "01/03/1850-31/12/1860" "spa" "x"].
Proof.
  apply (one_date_bound_keeps_all
           [Samples.list_row "0001-0001" "Prensa" "01/03/1850-31/12/1860" "spa" "x"]
           (mkdate 1950 1 1)).
  intros pub ->%list_elem_of_singleton.
  exists "01/03/1850-31/12/1860", (mkdate 1850 3 1), (mkdate 1860 12 31).
  by vm_compute.
Defined.

Lemma window_widens ds de ds' de' a b :
  le_date ds' ds = true -> le_date de de' = true ->
  date_matches (Some ds) (Some de) a b = true ->
  date_matches (Some ds') (Some de') a b = true.
Proof.
  intros H1 H2. unfold date_matches. destruct a as [s|], b as [e|]; try done.
  - intros [Ha Hb]%andb_true_iff. apply andb_true_iff. split.
    + by eapply le_date_trans.
    + by eapply le_date_trans.
  - intros Ha. by eapply le_date_trans.
  - intros Hb. by eapply le_date_trans.
Qed.

Lemma keeps_widens c ds de ds' de' ls pub :
  le_date ds' ds = true -> le_date de de' = true ->
  keeps c (Some ds) (Some de) ls pub = Ok true ->
  keeps c (Some ds') (Some de') ls pub = Ok true.
Proof.
  intros H1 H2. unfold keeps.
  destruct (in_collections c pub) as [[]|]; try done.
  change (mbind ?f (Ok true)) with (f true). cbn beta iota.
  unfold in_dates. destruct (stripped pub "date") as [t|]; [|done].
  change (mbind ?f (Ok t)) with (f t). cbn beta.
  destruct (is_empty t); [done|].
  destruct (parse_date_range (Some t)) as [a b].
  destruct (date_matches (Some ds) (Some de) a b) eqn:E; [|done].
  by rewrite (window_widens ds de ds' de' a b H1 H2 E).
Qed.

Lemma filter_loop_widens c ds de ds' de' ls pubs : forall acc acc' l l',
  le_date ds' ds = true -> le_date de de' = true ->
  sublist acc acc' ->
  filter_loop c (Some ds) (Some de) ls acc pubs = Ok l ->
  filter_loop c (Some ds') (Some de') ls acc' pubs = Ok l' ->
  sublist l l'.
Proof.
  induction pubs as [|pub rest IH]; intros acc acc' l l' H1 H2 Hs.
  - by intros [= <-] [= <-].
  - cbn [filter_loop].
    destruct (keeps c (Some ds) (Some de) ls pub) as [k|] eqn:Ek; [|done].
    destruct (keeps c (Some ds') (Some de') ls pub) as [k'|] eqn:Ek'; [|done].
    change (mbind ?f (Ok ?x)) with (f x). cbn beta.
    apply IH; try done. destruct k.
    + rewrite (keeps_widens c ds de ds' de' ls pub H1 H2 Ek) in Ek'.
      injection Ek' as <-. by apply sublist_app.
    + destruct k'; [by apply sublist_inserts_r | done].
Qed.

(** X22. With both date bounds, widening the window never loses a
    publication: when both calls return, the list for the narrow window
    is a sub-list, in the same order, of the list for the wide one. *)
Theorem wider_window_keeps_more publications c ds de ds' de' ls l l' :
  le_date ds' ds = true -> le_date de de' = true ->
  filter_publications publications c (Some ds) (Some de) ls = Ok l ->
  filter_publications publications c (Some ds') (Some de') ls = Ok l' ->
  sublist l l'.
Proof.
  intros H1 H2. unfold filter_publications.
  by apply (filter_loop_widens c ds de ds' de' ls publications [] []).
Qed.

Lemma wider_window_keeps_more_witness :
  sublist
    [Samples.list_row "0001-0001" "Prensa" "01/03/1850-31/12/1860" "spa" "x"]
    [Samples.list_row "0001-0001" "Prensa" "01/03/1850-31/12/1860" "spa" "x";
     Samples.list_row "0002-0002" "Prensa" "01/01/1900-" "spa" "y"].
Proof.
  apply (wider_window_keeps_more
           [Samples.list_row "0001-0001" "Prensa" "01/03/1850-31/12/1860" "spa" "x";
            Samples.list_row "0002-0002" "Prensa" "01/01/1900-" "spa" "y"]
           None (mkdate 1801 1 1) (mkdate 1899 12 31)
           (mkdate 1801 1 1) (mkdate 1950 12 31) None);
    vm_compute; reflexivity.
Defined.

Lemma lower_char_idem c : lower_char (lower_char c) = lower_char c.
Proof. destruct c as [[] [] [] [] [] [] [] []]; reflexivity. Qed.

Lemma lower_idem s : lower (lower s) = lower s.
Proof.
  induction s as [|c s IH]; [done|]. cbn [lower]. by rewrite lower_char_idem, IH.
Qed.

Lemma map_lower_idem ls : map lower (map lower ls) = map lower ls.
Proof.
  induction ls as [|x ls IH]; [done|]. cbn [map]. by rewrite lower_idem, IH.
Qed.

Lemma isspace_lower_char c : isspace (lower_char c) = isspace c.
Proof. destruct c as [[] [] [] [] [] [] [] []]; reflexivity. Qed.

Lemma lstrip_lower s : lstrip_by isspace (lower s) = lower (lstrip_by isspace s).
Proof.
  induction s as [|c s IH]; [done|]. cbn [lower lstrip_by].
  rewrite isspace_lower_char. by destruct (isspace c).
Qed.

Lemma rstrip_lower s : rstrip_by isspace (lower s) = lower (rstrip_by isspace s).
Proof.
  induction s as [|c s IH]; [done|]. cbn [lower rstrip_by].
  rewrite isspace_lower_char, IH.
  assert (is_empty (lower (rstrip_by isspace s)) = is_empty (rstrip_by isspace s))
    as -> by by destruct (rstrip_by isspace s).
  by destruct (is_empty (rstrip_by isspace s) && isspace c).
Qed.

Lemma strip_lower s : strip (lower s) = lower (strip s).
Proof. unfold strip, strip_by. by rewrite lstrip_lower, rstrip_lower. Qed.

(** X23. The language filter does not see letter case, on either side:
    a list of requested codes gives the same result as the list of their
    lower-case forms, and a publication whose language cell is put in
    lower case passes the language test exactly as before. *)
Theorem languages_case_insensitive publications c ds de ls :
  filter_publications publications c ds de (Some (map lower ls))
  = filter_publications publications c ds de (Some ls)
  /\ (forall (pub : row) v,
        in_languages (Some ls) (<["language" := Some (lower v)]> pub)
        = in_languages (Some ls) (<["language" := Some v]> pub)).
Proof.
  split.
  - unfold filter_publications. generalize (@nil row) as acc.
    induction publications as [|pub rest IH]; intros acc; [done|].
    cbn [filter_loop].
    assert (keeps c ds de (Some (map lower ls)) pub = keeps c ds de (Some ls) pub)
      as ->.
    { unfold keeps, in_languages. by rewrite map_lower_idem. }
    destruct (keeps c ds de (Some ls) pub) as [k|]; [|done].
    change (mbind ?f (Ok ?x)) with (f x). cbn beta. apply IH.
  - intros pub v. unfold in_languages, stripped.
    rewrite !lookup_insert_eq.
    change (mbind ?f (Ok ?x)) with (f x). cbn beta.
    by rewrite strip_lower, lower_idem.
Qed.

End FilterFacts.

Module PublicationsFacts.
Import PyStr Exn Publications.

Lemma truthy_field_not_empty (r : row) k v :
  truthy_field r k = Some v -> is_empty v = false.
Proof.
  unfold truthy_field. destruct (r !! k) as [[x|]|]; try done.
  destruct (is_empty x) eqn:E; [done|]. by intros [= <-].
Qed.

Lemma scan_issn_fold rows (init : gset string) u :
  u ∈ fold_left scan_issn rows init <->
  u ∈ init \/ exists r, r ∈ rows /\ truthy_field r "issn" = Some u.
Proof.
  revert init. induction rows as [|r rows IH]; intros init; cbn [fold_left].
  - split; [by left|]. intros [H|(r & Hr & _)]; [done|]. by apply elem_of_nil in Hr.
  - rewrite IH. unfold scan_issn at 1. split.
    + intros [H|(r' & Hr' & Hu)].
      * destruct (truthy_field r "issn") as [v|] eqn:E; [|by left].
        apply elem_of_union in H as [H|H]; [|by left].
        apply elem_of_singleton in H as ->. right. exists r. split; [left|done].
      * right. exists r'. split; [by right|done].
    + intros [H|(r' & Hr' & Hu)].
      * left. destruct (truthy_field r "issn"); [|done].
        apply elem_of_union. by right.
      * apply elem_of_cons in Hr' as [->|Hr'].
        -- left. rewrite Hu. apply elem_of_union. left. by apply elem_of_singleton.
        -- right. by exists r'.
Qed.

(** X24. A listed publication is left to scrape exactly when no row of
    the output file has its ISSN as a non-empty value; so a publication
    listed with a blank ISSN is scraped again on every run, whatever the
    file holds, even when the reading of the file failed. *)
Theorem blank_issn_always_rescraped file publication_data_list p :
  let existing := (get_existing_issns (Some file)).1 in
  (p ∈ publications_to_scrape publication_data_list existing <->
   p ∈ publication_data_list
   /\ forall r, r ∈ yielded file -> truthy_field r "issn" <> Some (ISSN p))
  /\ (p ∈ publication_data_list -> is_empty (ISSN p) = true ->
      p ∈ publications_to_scrape publication_data_list existing).
Proof.
  cbn zeta. unfold publications_to_scrape, get_existing_issns. cbn [fst].
  assert (Hiff : p ∈ filter (fun p => ISSN p ∉ fold_left scan_issn (yielded file) ∅)
                       publication_data_list <->
                 p ∈ publication_data_list
                 /\ forall r, r ∈ yielded file ->
                      truthy_field r "issn" <> Some (ISSN p)).
  { rewrite list_elem_of_filter, scan_issn_fold. split.
    - intros [Hn Hp]. split; [done|]. intros r Hr Hu. apply Hn. right. by exists r.
    - intros [Hp Hn]. split; [|done]. intros [H|(r & Hr & Hu)].
      + by apply not_elem_of_empty in H.
      + by apply (Hn r). }
  split; [done|]. intros Hp He. apply Hiff. split; [done|].
  intros r Hr Hu. apply truthy_field_not_empty in Hu. congruence.
Qed.

Lemma blank_issn_always_rescraped_witness :
  mklisted EmptyString "Hoja suelta" "/hd/es/card?sid=7"
  ∈ publications_to_scrape
      [mklisted "0001-0001" "La Voz" "/hd/es/card?sid=1";
       mklisted EmptyString "Hoja suelta" "/hd/es/card?sid=7"]
      (get_existing_issns (Some Samples.padded_list)).1.
Proof.
  apply (proj2 (blank_issn_always_rescraped Samples.padded_list
           [mklisted "0001-0001" "La Voz" "/hd/es/card?sid=1";
            mklisted EmptyString "Hoja suelta" "/hd/es/card?sid=7"]
           (mklisted EmptyString "Hoja suelta" "/hd/es/card?sid=7"))).
  - right. left.
  - reflexivity.
Defined.

End PublicationsFacts.

Module BatchesFacts.
Import Batches.

Lemma multiple_below n k : 300 * k < n <-> k < (n + 299) / 300.
Proof.
  pose proof (Nat.div_mod_eq (n + 299) 300).
  pose proof (Nat.mod_upper_bound (n + 299) 300 ltac:(lia)). lia.
Qed.

Lemma batches_from_spec (l : list string) : forall fuel k,
  length l <= 300 * k + 300 * fuel ->
  let bs := batches_from fuel (300 * k) l in
  concat (map batch_paths bs) = drop (300 * k) l
  /\ map batch_num bs = seq (k + 1) (length bs)
  /\ length bs = (length l + 299) / 300 - k
  /\ Forall (fun b => 0 < length (batch_paths b) <= BATCH_SIZE
                      /\ total_batches b = (length l + 299) / 300) bs.
Proof.
  induction fuel as [|fuel IH]; intros k Hfuel; cbn zeta.
  - cbn [batches_from]. pose proof (multiple_below (length l) k).
    rewrite drop_ge by lia. split_and!; try done.
    cbn [length]. destruct (decide (k < (length l + 299) / 300)); lia.
  - cbn [batches_from]. unfold BATCH_SIZE in *.
    destruct (Nat.ltb_spec (300 * k) (length l)) as [Hlt|Hge].
    + destruct (IH (S k) ltac:(lia)) as (Hc & Hn & Hl & Hf).
      replace (300 * k + 300) with (300 * S k) by lia.
      cbn [map concat length batch_paths batch_num seq].
      pose proof (proj1 (multiple_below (length l) k) Hlt).
      split_and!.
      * rewrite Hc.
        replace (300 * S k) with (300 * k + 300) by lia.
        rewrite <- drop_drop. apply take_drop.
      * rewrite Hn, (Nat.mul_comm 300 k), Nat.div_mul by lia.
        replace (S k + 1) with (S (k + 1)) by lia. done.
      * rewrite Hl. lia.
      * constructor; [|done]. cbn [batch_paths total_batches].
        rewrite length_take, length_drop. split; [lia|].
        replace (length l + 300 - 1) with (length l + 299) by lia. done.
    + rewrite drop_ge by lia. split_and!; try done.
      pose proof (multiple_below (length l) k). cbn [length].
      destruct (decide (k < (length l + 299) / 300)); lia.
Qed.

(** X25. The batches of [run_batch_ocr] hold every path exactly once and
    in order; each batch holds between 1 and 300 paths; the batches are
    numbered 1, 2, ... and their number is the total the loop prints,
    the number of paths divided by 300 and rounded up. *)
Theorem batches_cover_all_paths relative_target_paths :
  let bs := batches relative_target_paths in
  concat (map batch_paths bs) = relative_target_paths
  /\ map batch_num bs = seq 1 (length bs)
  /\ Forall (fun b => 0 < length (batch_paths b) <= BATCH_SIZE
                      /\ total_batches b = length bs) bs
  /\ length bs = (length relative_target_paths + 299) / 300.
Proof.
  cbn zeta. unfold batches.
  destruct (batches_from_spec relative_target_paths
              (length relative_target_paths) 0 ltac:(lia))
    as (Hc & Hn & Hl & Hf).
  cbn zeta in *. change (300 * 0) with 0 in *.
  rewrite Nat.sub_0_r in Hl. split_and!; try done.
  rewrite Hl. exact Hf.
Qed.

End BatchesFacts.

Module TallyFacts.
Import PyStr Exn Tally.

Section Log.
Variable append_log : nat -> bool -> result unit.

Lemma tally_step_counts total c i pdf_path res c' :
  tally_step append_log total c i pdf_path res = Ok c' ->
  success_count c' + error_count c' + skipped_count c'
  = success_count c + error_count c + skipped_count c + 1
    + (if recounted_at append_log i res then 1 else 0)
  /\ error_count c' + length (failures_log c)
     = error_count c + length (failures_log c')
       + (if recounted_at append_log i res then 1 else 0).
Proof.
  unfold tally_step, critical, log_failure, recounted_at, count_error.
  destruct res as [[[] message]|e].
  - destruct (contains "Skipped" message); intros [= <-]; cbn; lia.
  - destruct (append_log i false) as [[]|e1]; cbn.
    + intros [= <-]. cbn. rewrite length_app. cbn. lia.
    + destruct (append_log i true) as [[]|e2]; [|done].
      intros [= <-]. cbn. rewrite length_app. cbn. lia.
  - destruct (append_log i true) as [[]|e2]; [|done].
    intros [= <-]. cbn. rewrite length_app. cbn. lia.
Qed.

Lemma tally_from_counts total completed : forall c i c',
  tally_from append_log total c i completed = Ok c' ->
  success_count c' + error_count c' + skipped_count c'
  = success_count c + error_count c + skipped_count c + length completed
    + recounted_from append_log i completed
  /\ error_count c' + length (failures_log c)
     = error_count c + length (failures_log c')
       + recounted_from append_log i completed.
Proof.
  induction completed as [|[pdf_path res] rest IH]; intros c i c'.
  - intros [= <-]. cbn. lia.
  - cbn [tally_from recounted_from length].
    destruct (tally_step append_log total c i pdf_path res) as [c1|e] eqn:E;
      [|done].
    intros H.
    change (tally_from append_log total c1 (S i) rest = Ok c') in H.
    apply IH in H as [H1 H2].
    apply tally_step_counts in E as [E1 E2]. lia.
Qed.

Lemma tally_step_returns total c i pdf_path res :
  append_log i true = Ok tt ->
  exists c', tally_step append_log total c i pdf_path res = Ok c'.
Proof.
  intros Hh. unfold tally_step, critical, log_failure.
  destruct res as [[[] message]|e].
  - destruct (contains "Skipped" message); by eexists.
  - destruct (append_log i false) as [[]|e1]; [by eexists|].
    rewrite Hh. by eexists.
  - rewrite Hh. by eexists.
Qed.

Lemma tally_from_returns total completed : forall c i,
  (forall j, i <= j < i + length completed -> append_log j true = Ok tt) ->
  exists c', tally_from append_log total c i completed = Ok c'.
Proof.
  induction completed as [|[pdf_path res] rest IH]; intros c i Hh.
  - by eexists.
  - cbn [tally_from length] in *.
    destruct (tally_step_returns total c i pdf_path res) as [c1 ->].
    { apply Hh. lia. }
    change (exists c', tally_from append_log total c1 (S i) rest = Ok c').
    apply IH. intros j Hj. apply Hh. lia.
Qed.

Lemma recounted_from_none completed : forall i,
  (forall j, i <= j < i + length completed -> append_log j false = Ok tt) ->
  recounted_from append_log i completed = 0.
Proof.
  induction completed as [|[pdf_path res] rest IH]; intros i Hb; [done|].
  cbn [recounted_from length] in *. rewrite IH.
  - unfold recounted_at. destruct res as [[[] message]|e]; try done.
    by rewrite (Hb i ltac:(lia)).
  - intros j Hj. apply Hb. lia.
Qed.

(** X26. The tally of [main], prints apart.  Whenever the loop over
    the completed futures ends, the three counters add up to the
    number of futures plus the number of futures counted twice: the
    ones that answered [False] and whose log write in the body of the
    [try] raised, which the handler counts once more; and the counter
    of errors is the number of lines of the log plus that number.  The
    loop ends whenever every log write of the handler succeeds.  When
    every log write of the body succeeds no future is counted twice,
    so each is counted once and each error has its line. *)
Theorem tally_counts_every_pdf completed :
  (forall c, tally append_log completed = Ok c ->
     success_count c + error_count c + skipped_count c
     = length completed + recounted append_log completed
     /\ error_count c
        = length (failures_log c) + recounted append_log completed)
  /\ ((forall j, j < length completed -> append_log j true = Ok tt) ->
      exists c, tally append_log completed = Ok c)
  /\ ((forall j, j < length completed -> append_log j false = Ok tt) ->
      recounted append_log completed = 0).
Proof.
  unfold tally, recounted. split_and!.
  - intros c H. apply tally_from_counts in H as [H1 H2]. cbn in *. lia.
  - intros Hh. apply tally_from_returns. intros j Hj. apply Hh. lia.
  - intros Hb. apply recounted_from_none. intros j Hj. apply Hb. lia.
Qed.

End Log.

Lemma tally_counts_every_pdf_witness :
  exists c,
    tally (fun _ in_handler =>
             if in_handler : bool then Ok tt
             else Raise "No such file or directory")
      [("/in/a.pdf", Ok (false, "Error reading PDF /in/a.pdf: EOF"));
       ("/in/b.pdf", Ok (true, "Processed: b.pdf (2 pages)"))] = Ok c
    /\ success_count c + error_count c + skipped_count c = 2 + 1
    /\ error_count c = length (failures_log c) + 1.
Proof.
  destruct (tally_counts_every_pdf
              (fun _ in_handler =>
                 if in_handler : bool then Ok tt
                 else Raise "No such file or directory")
              [("/in/a.pdf", Ok (false, "Error reading PDF /in/a.pdf: EOF"));
               ("/in/b.pdf", Ok (true, "Processed: b.pdf (2 pages)"))])
    as (Hcount & Hends & _).
  destruct Hends as [c Hc]; [done|].
  exists c. split; [exact Hc|]. exact (Hcount c Hc).
Defined.

End TallyFacts.
